(** * Summer days from a climate model: the notebook's computations

    A shallow embedding of the code cells of [use_case_climate_data.ipynb]:
    the selection of the catalog file that covers a year, the slice of one
    year of daily maxima, the nearest model grid cell, the rectangle drawn
    around it and the count of summer days.

    Conventions of the embedding.
    - A floating-point sample (temperature, latitude, longitude) is a
      rational number [Q]; the operations used by the notebook ([-], [abs],
      [maximum], [min], [>], [==], [/ 2]) are the exact ones, and NaN does
      not occur.
    - A one-dimensional array is a [list]; the two-dimensional array [c] is
      a list of rows.  Indices produced by numpy are [nat]; an index the
      notebook computes by arithmetic ([yloc - 1]) is a [Z], read by
      Python's indexing rule.
    - A Python exception is a value of [exn], carried by [result].
    - A pandas data frame is a list of rows, each row a finite map from
      column names to cells; data frames live in a store of objects so that
      aliasing and copying are visible. *)

From stdpp Require Import gmap strings list fin_maps.
From Stdlib Require Import QArith Qabs Qminmax.
From Stdlib Require Import Lqa.

#[local] Open Scope Q_scope.

(** ** Python faults *)

Module Py.

Inductive exn : Set :=
  | IndexError
  | ValueError
  | KeyError
  | TypeError.

Inductive result (A : Type) : Type :=
  | Ok (a : A)
  | Raise (e : exn).

Arguments Ok {A} a.
Arguments Raise {A} e.

#[export] Instance result_ret : MRet result := fun A a => Ok a.

#[export] Instance result_bind : MBind result := fun A B f m =>
  match m with
  | Ok a => f a
  | Raise e => Raise e
  end.

#[export] Instance result_fmap : FMap result := fun A B f m =>
  match m with
  | Ok a => Ok (f a)
  | Raise e => Raise e
  end.

(** [for x in xs: f x], stopping at the first fault. *)
Fixpoint traverse {A B : Type} (f : A -> result B) (xs : list A) : result (list B) :=
  match xs with
  | [] => Ok []
  | x :: xs' =>
      y ← f x;
      ys ← traverse f xs';
      Ok (y :: ys)
  end.

(** The position that a Python integer [i] denotes in a sequence of length
    [n]: a negative index counts from the end, anything outside [-n, n) is
    an [IndexError]. *)
Definition py_position (n : nat) (i : Z) : result nat :=
  let k := (if (i <? 0)%Z then i + Z.of_nat n else i)%Z in
  if ((0 <=? k) && (k <? Z.of_nat n))%Z
  then Ok (Z.to_nat k)
  else Raise IndexError.

(** [xs[i]] for a Python integer [i]. *)
Definition py_index {A : Type} (xs : list A) (i : Z) : result A :=
  k ← py_position (length xs) i;
  match xs !! k with
  | Some x => Ok x
  | None => Raise IndexError
  end.

(** The target list [[x]] of an unpacking assignment [[x] = xs]: exactly one
    value is expected, more or fewer is a [ValueError]. *)
Definition unpack1 {A : Type} (xs : list A) : result A :=
  match xs with
  | [x] => Ok x
  | _ => Raise ValueError
  end.

End Py.

Import Py.

(** ** Section 5 of the notebook: counting summer days *)

Module SummerDays.

(** [arr > t], element by element. *)
Definition gt (arr : list Q) (t : Q) : list bool :=
  map (fun x => negb (Qle_bool x t)) arr.

(** [arr[mask]]: the elements at the positions where the mask holds. *)
Fixpoint bool_index {A : Type} (arr : list A) (mask : list bool) : list A :=
  match arr, mask with
  | x :: arr', b :: mask' =>
      if b then x :: bool_index arr' mask' else bool_index arr' mask'
  | _, _ => []
  end.

(** [arr.size] *)
Definition size {A : Type} (arr : list A) : nat := length arr.

(** [tasmax_year_place_xr[tasmax_year_place_xr > T].size] *)
Definition count_summer_days (tasmax_year_place_xr : list Q) (T : Q) : nat :=
  size (bool_index tasmax_year_place_xr (gt tasmax_year_place_xr T)).

(** The threshold written in the notebook. *)
Definition summer_day_threshold : Q := 25.

Definition no_summer_days_model (tasmax_year_place_xr : list Q) : nat :=
  count_summer_days tasmax_year_place_xr summer_day_threshold.

(** The number of samples strictly greater than [T], as the specification
    words it: one is added for each sample [x] with [T < x]. *)
Fixpoint strictly_greater (T : Q) (series : list Q) : nat :=
  match series with
  | [] => 0
  | x :: series' =>
      if Qlt_le_dec T x
      then S (strictly_greater T series')
      else strictly_greater T series'
  end.

(** The German Weather Service definition quoted by the notebook: a summer
    day is a day whose maximum is at least the threshold. *)
Fixpoint at_least (T : Q) (series : list Q) : nat :=
  match series with
  | [] => 0
  | x :: series' =>
      if Qlt_le_dec x T
      then at_least T series'
      else S (at_least T series')
  end.

(** The series of the end-to-end example of the specification. *)
Definition example_series : list Q := [20.0; 25.0; 25.1; 30.0].

End SummerDays.

(** ** Section 4 of the notebook: the nearest model grid cell *)

Module NearestCell.

(** [np.abs(coord - target)] on a one-dimensional coordinate. *)
Definition abs_diff (coord : list Q) (target : Q) : list Q :=
  map (fun x => Qabs (x - target)) coord.

(** [np.maximum(a, b)] on two arrays over different dimensions: xarray
    broadcasts by dimension name, so the result is laid out with the
    dimension of [a] first and that of [b] second. *)
Definition np_maximum (a b : list Q) : list (list Q) :=
  map (fun x => map (fun y => Qmax x y) b) a.

(** [np.min(c)]: the minimum over all entries; a zero-size array has none
    and the reduction raises [ValueError]. *)
Definition np_min (c : list (list Q)) : result Q :=
  match concat c with
  | [] => Raise ValueError
  | v :: vs => Ok (fold_left Qmin vs v)
  end.

(** [c == m], entry by entry. *)
Definition eq_scalar (c : list (list Q)) (m : Q) : list (list bool) :=
  map (map (fun v => Qeq_bool v m)) c.

(** The positions of the true entries of one row, from column [j] on. *)
Fixpoint row_positions (i j : nat) (row : list bool) : list (nat * nat) :=
  match row with
  | [] => []
  | b :: row' =>
      if b then (i, j) :: row_positions i (S j) row'
      else row_positions i (S j) row'
  end.

(** The positions of the true entries of a mask, rows from [i] on, in
    row-major order. *)
Fixpoint positions (i : nat) (mask : list (list bool)) : list (nat * nat) :=
  match mask with
  | [] => []
  | row :: mask' => row_positions i 0 row ++ positions (S i) mask'
  end.

(** [np.where(mask)]: one index array per dimension. *)
Definition np_where (mask : list (list bool)) : list nat * list nat :=
  let ps := positions 0 mask in
  (map fst ps, map snd ps).

(** The cell of the notebook that finds the grid point next to the chosen
    location; [lat] and [lon] are the coordinates of [tasmax_year_xr]. *)
Definition nearest_cell (lat lon : list Q) (latitude longitude : Q)
  : result (nat * nat) :=
  let abslat := abs_diff lat latitude in
  let abslon := abs_diff lon longitude in
  let c := np_maximum abslon abslat in
  m ← np_min c;
  let '(xs, ys) := np_where (eq_scalar c m) in
  xloc ← unpack1 xs;
  yloc ← unpack1 ys;
  Ok (xloc, yloc).

(** The cost of the cell in row [i] and column [j] of the grid, as the
    specification writes it. *)
Definition cost (L M : list Q) (targetLat targetLon : Q) (i j : nat) : option Q :=
  match L !! i, M !! j with
  | Some la, Some lo => Some (Qmax (Qabs (la - targetLat)) (Qabs (lo - targetLon)))
  | _, _ => None
  end.

(** Cell [(row, col)] lies in the grid and no cell of the grid is cheaper. *)
Definition minimizes (L M : list Q) (targetLat targetLon : Q) (row col : nat) : Prop :=
  exists v, cost L M targetLat targetLon row col = Some v /\
    forall i j w, cost L M targetLat targetLon i j = Some w -> v <= w.

(** Two different cells of the grid are both as cheap as can be. *)
Definition tie (L M : list Q) (targetLat targetLon : Q) : Prop :=
  exists r1 c1 r2 c2,
    (r1, c1) <> (r2, c2) /\
    minimizes L M targetLat targetLon r1 c1 /\
    minimizes L M targetLat targetLon r2 c2.


End NearestCell.

(** ** Section 4 of the notebook: the rectangle drawn around the cell *)

Module MapRect.

(** [(coord[k] + coord[loc]) / 2], the two reads in the order Python
    evaluates them. *)
Definition midpoint (coord : list Q) (k loc : Z) : result Q :=
  a ← py_index coord k;
  b ← py_index coord loc;
  Ok ((a + b) / 2).

Definition rect_lat1_model (lat : list Q) (yloc : Z) : result Q :=
  midpoint lat (yloc - 1) yloc.

Definition rect_lon1_model (lon : list Q) (xloc : Z) : result Q :=
  midpoint lon (xloc - 1) xloc.

Definition rect_lat2_model (lat : list Q) (yloc : Z) : result Q :=
  midpoint lat (yloc + 1) yloc.

Definition rect_lon2_model (lon : list Q) (xloc : Z) : result Q :=
  midpoint lon (xloc + 1) xloc.

(** The [bounds] handed to [folium.Rectangle]. *)
Definition bounds (lat lon : list Q) (yloc xloc : Z) : result ((Q * Q) * (Q * Q)) :=
  lat1 ← rect_lat1_model lat yloc;
  lon1 ← rect_lon1_model lon xloc;
  lat2 ← rect_lat2_model lat yloc;
  lon2 ← rect_lon2_model lon xloc;
  Ok ((lat1, lon1), (lat2, lon2)).

End MapRect.

(** ** Section 2.3 of the notebook: the catalog file that covers a year *)

Module Catalog.

(** A cell of a data frame. *)
Inductive cell : Set :=
  | Str (s : string)
  | Int (z : Z)
  | NaN.

(** A data frame: its column labels in order, and its rows. *)
Record dataframe : Type := DataFrame {
  columns : list string;
  rows : list (gmap string cell)
}.

(** *** Pure operations on data frames *)

(** [df[name]]: the cells of a column, [KeyError] when there is no such
    column. *)
Definition getitem (name : string) (df : dataframe) : result (list cell) :=
  if decide (name ∈ columns df)
  then Ok (map (fun r => default NaN (r !! name)) (rows df))
  else Raise KeyError.

(** [series.str[start:stop]], cell by cell; a cell that is not a string
    yields NaN. *)
Definition str_slice (start stop : nat) (v : cell) : cell :=
  match v with
  | Str s => Str (String.substring start (stop - start) s)
  | _ => NaN
  end.

Definition digit (a : Ascii.ascii) : option Z :=
  let n := Ascii.nat_of_ascii a in
  if ((48 <=? n) && (n <=? 57))%nat then Some (Z.of_nat (n - 48)) else None.

Fixpoint digits (acc : Z) (s : string) : option Z :=
  match s with
  | EmptyString => Some acc
  | String a s' =>
      match digit a with
      | Some d => digits (10 * acc + d) s'
      | None => None
      end
  end.

(** [int(s)] on the decimal numerals that a [time_range] holds; the empty
    string and any other text are a [ValueError]. *)
Definition int_of_str (s : string) : result Z :=
  match s with
  | EmptyString => Raise ValueError
  | _ => match digits 0 s with
         | Some z => Ok z
         | None => Raise ValueError
         end
  end.

(** [series.astype(int)]: NaN cannot be cast. *)
Definition astype_int (col : list cell) : result (list cell) :=
  traverse (fun v =>
    match v with
    | Str s => z ← int_of_str s; Ok (Int z)
    | Int z => Ok (Int z)
    | NaN => Raise ValueError
    end) col.

(** [df[name] = values], on the value of the frame: the column is added at
    the end when it is new; the lengths must agree. *)
Definition setitem (name : string) (values : list cell) (df : dataframe)
  : result dataframe :=
  if decide (length values = length (rows df))
  then Ok {| columns := if decide (name ∈ columns df) then columns df
                        else columns df ++ [name];
             rows := zip_with (fun r v => <[name := v]> r) (rows df) values |}
  else Raise ValueError.

(** [df.drop(columns=[name])], on the value of the frame. *)
Definition drop_column (name : string) (df : dataframe) : result dataframe :=
  if decide (name ∈ columns df)
  then Ok {| columns := filter (fun c => c <> name) (columns df);
             rows := map (delete name) (rows df) |}
  else Raise KeyError.

(** [Y >= series] and [Y <= series], cell by cell: a comparison with NaN is
    false, a comparison of an integer with a string is a [TypeError]. *)
Definition ge_series (Y : Z) (col : list cell) : result (list bool) :=
  traverse (fun v =>
    match v with
    | Int z => Ok (z <=? Y)%Z
    | NaN => Ok false
    | Str _ => Raise TypeError
    end) col.

Definition le_series (Y : Z) (col : list cell) : result (list bool) :=
  traverse (fun v =>
    match v with
    | Int z => Ok (Y <=? z)%Z
    | NaN => Ok false
    | Str _ => Raise TypeError
    end) col.

(** [df[mask]]: a new frame with the rows where the mask holds. *)
Definition mask_rows (df : dataframe) (mask : list bool) : dataframe :=
  {| columns := columns df;
     rows := SummerDays.bool_index (rows df) mask |}.

(** The selection of the file that contains the year of the drop-down menu. *)
Definition selected_file (year : Z) (query_result_df : dataframe) : result dataframe :=
  start_year ← getitem "start_year" query_result_df;
  after_start ← ge_series year start_year;
  end_year ← getitem "end_year" query_result_df;
  before_end ← le_series year end_year;
  Ok (mask_rows query_result_df (zip_with andb after_start before_end)).

(** [selected_file["zarr_path"].values[0]] *)
Definition selected_path (selected_file : dataframe) : result cell :=
  zarr_path ← getitem "zarr_path" selected_file;
  py_index zarr_path 0.

(** *** The store of data frame objects *)

(** Variables of the notebook hold references to data frames. *)
Definition M (A : Type) : Type :=
  gmap nat dataframe -> result (A * gmap nat dataframe).

#[export] Instance M_ret : MRet M := fun A a σ => Ok (a, σ).

#[export] Instance M_bind : MBind M := fun A B f m σ =>
  match m σ with
  | Ok (a, σ') => f a σ'
  | Raise e => Raise e
  end.

(** Reading the object behind a reference. *)
Definition deref (r : nat) : M dataframe := fun σ =>
  match σ !! r with
  | Some df => Ok (df, σ)
  | None => Raise KeyError
  end.

(** Lifting a computation on the value of a frame that does not change it. *)
Definition lift {A : Type} (m : result A) : M A := fun σ =>
  match m with
  | Ok a => Ok (a, σ)
  | Raise e => Raise e
  end.

(** Changing the object behind a reference in place. *)
Definition update (r : nat) (f : dataframe -> result dataframe) : M unit := fun σ =>
  match σ !! r with
  | Some df =>
      match f df with
      | Ok df' => Ok (tt, <[r := df']> σ)
      | Raise e => Raise e
      end
  | None => Raise KeyError
  end.

(** [df.copy()]: a new object with the same columns and rows. *)
Definition copy (r : nat) : M nat := fun σ =>
  match σ !! r with
  | Some df => let r' := fresh (dom σ) in Ok (r', <[r' := df]> σ)
  | None => Raise KeyError
  end.

(** The cell of the notebook that builds [query_result_df] from [cat.df];
    the result is the reference held by the variable [query_result_df]. *)
Definition query_result_df (cat_df : nat) : M nat :=
  query_result_df ← copy cat_df;
  df ← deref query_result_df;
  time_range ← lift (getitem "time_range" df);
  start_year ← lift (astype_int (map (str_slice 0 4) time_range));
  update query_result_df (setitem "start_year" start_year);;
  df ← deref query_result_df;
  time_range ← lift (getitem "time_range" df);
  end_year ← lift (astype_int (map (str_slice 9 13) time_range));
  update query_result_df (setitem "end_year" end_year);;
  update query_result_df (drop_column "time_range");;
  mret query_result_df.

(** Row [r] carries an interval that contains [Y]. *)
Definition covers (Y : Z) (r : gmap string cell) : Prop :=
  exists start_year end_year : Z,
    r !! "start_year" = Some (Int start_year) /\
    r !! "end_year" = Some (Int end_year) /\
    (start_year <= Y <= end_year)%Z.

(** The frame has the columns that the selection reads, with an integer
    interval in each row, as [query_result_df] leaves them. *)
Definition has_years (df : dataframe) : Prop :=
  "start_year" ∈ columns df /\ "end_year" ∈ columns df /\
  "zarr_path" ∈ columns df /\
  Forall (fun r => exists s e : Z,
            r !! "start_year" = Some (Int s) /\ r !! "end_year" = Some (Int e))
         (rows df).

(** The test that the two masks of the selection make on one row. *)
Definition row_mask (Y : Z) (r : gmap string cell) : bool :=
  match r !! "start_year", r !! "end_year" with
  | Some (Int s), Some (Int e) => (s <=? Y)%Z && (Y <=? e)%Z
  | _, _ => false
  end.

(** A catalog of two files, as [cat.df] shows them, and a store in which
    the variable [cat.df] refers to object 0. *)
Definition example_cat_df : dataframe :=
  {| columns := ["time_range"; "zarr_path"];
     rows := [ {[ "time_range" := Str "20150101-20191231";
                  "zarr_path" := Str "tasmax_2015.zarr" ]};
               {[ "time_range" := Str "20200101-20241231";
                  "zarr_path" := Str "tasmax_2020.zarr" ]} ] |}.

Definition example_store : gmap nat dataframe := {[ 0%nat := example_cat_df ]}.

(** The frame that the cell makes of it. *)
Definition example_query_result_df : dataframe :=
  {| columns := ["zarr_path"; "start_year"; "end_year"];
     rows := [ {[ "zarr_path" := Str "tasmax_2015.zarr";
                  "start_year" := Int 2015; "end_year" := Int 2019 ]};
               {[ "zarr_path" := Str "tasmax_2020.zarr";
                  "start_year" := Int 2020; "end_year" := Int 2024 ]} ] |}.

(** The three frame operations of the cell that builds [query_result_df],
    one after the other, on the value of the copied frame. *)
Definition years_frame (df : dataframe) : result dataframe :=
  time_range ← getitem "time_range" df;
  start_year ← astype_int (map (str_slice 0 4) time_range);
  df1 ← setitem "start_year" start_year df;
  time_range ← getitem "time_range" df1;
  end_year ← astype_int (map (str_slice 9 13) time_range);
  df2 ← setitem "end_year" end_year df1;
  drop_column "time_range" df2.

(** The [time_range] of the row is a text whose characters 0 to 3 read as
    the integer [s] and whose characters 9 to 12 read as the integer [e]. *)
Definition time_range_years (r : gmap string cell) (s e : Z) : Prop :=
  exists t : string,
    r !! "time_range" = Some (Str t) /\
    int_of_str (String.substring 0 4 t) = Ok s /\
    int_of_str (String.substring 9 4 t) = Ok e.

(** The row with the two years in place of its [time_range]. *)
Definition with_years (r : gmap string cell) (s e : Z) : gmap string cell :=
  delete "time_range" (<["end_year" := Int e]> (<["start_year" := Int s]> r)).

(** The column labels after [df[name] = values]. *)
Definition columns_with (name : string) (cols : list string) : list string :=
  if decide (name ∈ cols) then cols else cols ++ [name].

End Catalog.

(** ** Sections 3 and 5 of the notebook: one year of one grid cell *)

Module Extraction.

(** A time label, field by field as in its ISO form
    [YYYY-MM-DDThh:mm:ss.nnnnnnnnn]. *)
Record timestamp : Set := Timestamp {
  year : Z;
  month : Z;
  day : Z;
  hour : Z;
  minute : Z;
  second : Z;
  nanosecond : Z
}.

Definition fields (t : timestamp) : list Z :=
  [year t; month t; day t; hour t; minute t; second t; nanosecond t].

(** Time labels are ordered field by field, the year first. *)
Fixpoint lex_leb (a b : list Z) : bool :=
  match a, b with
  | [], _ => true
  | _ :: _, [] => false
  | x :: a', y :: b' => (x <? y)%Z || ((x =? y)%Z && lex_leb a' b')
  end.

Definition ts_leb (a b : timestamp) : bool := lex_leb (fields a) (fields b).

Definition ts_ltb (a b : timestamp) : bool := negb (ts_leb b a).

(** [str(year_box.value) + "-01-01T12:00:00.000000000"] *)
Definition time_start (year_box : Z) : timestamp :=
  Timestamp year_box 1 1 12 0 0 0.

(** [str(year_box.value) + "-12-31T12:00:00.000000000"] *)
Definition time_end (year_box : Z) : timestamp :=
  Timestamp year_box 12 31 12 0 0 0.

(** The array [tasmax] with dimensions (time, lat, lon): its coordinates
    and, for each time label, the values on the grid, one row per latitude. *)
Record dataarray : Type := DataArray {
  lat : list Q;
  lon : list Q;
  steps : list (timestamp * list (list Q))
}.

(** The time coordinate of the array. *)
Definition time (arr : dataarray) : list timestamp := map fst (steps arr).

(** The number of leading labels of the index before [label] ([side] left)
    or not after it ([side] right): on an increasing index, the insertion
    point that [searchsorted] finds. *)
Fixpoint searchsorted (right : bool) (index : list timestamp) (label : timestamp) : nat :=
  match index with
  | [] => 0
  | t :: index' =>
      if (if right then ts_leb t label else ts_ltb t label)
      then S (searchsorted right index' label)
      else 0
  end.

(** [arr.loc[start:stop, :, :]]: a slice by label along an increasing time
    index, both ends included. *)
Definition loc_slice (arr : dataarray) (start stop : timestamp) : dataarray :=
  let i := searchsorted false (time arr) start in
  let j := searchsorted true (time arr) stop in
  {| lat := lat arr; lon := lon arr; steps := drop i (take j (steps arr)) |}.

(** The slice of the selected year. *)
Definition tasmax_year_xr (tasmax_xr : dataarray) (year_box : Z) : dataarray :=
  loc_slice tasmax_xr (time_start year_box) (time_end year_box).

(** [arr[:, yloc, xloc]]: the series of one grid cell; the two indices are
    checked against the shape of the array. *)
Definition isel (arr : dataarray) (yloc xloc : Z) : result (list (timestamp * Q)) :=
  y ← py_position (length (lat arr)) yloc;
  x ← py_position (length (lon arr)) xloc;
  traverse (fun step : timestamp * list (list Q) =>
    match snd step !! y ≫= (.!! x) with
    | Some v => Ok (fst step, v)
    | None => Raise IndexError
    end) (steps arr).

(** Kelvin to degrees Celsius. *)
Definition kelvin_offset : Q := 273.15.

(** [tasmax_year_xr[:, yloc, xloc] - 273.15] *)
Definition tasmax_year_place_xr (tasmax_year_xr : dataarray) (yloc xloc : Z)
  : result (list (timestamp * Q)) :=
  cell ← isel tasmax_year_xr yloc xloc;
  Ok (map (fun s : timestamp * Q => (fst s, snd s - kelvin_offset)) cell).

(** The two cells of the notebook one after the other. *)
Definition annual_series (tasmax_xr : dataarray) (year_box : Z) (yloc xloc : Z)
  : result (list (timestamp * Q)) :=
  tasmax_year_place_xr (tasmax_year_xr tasmax_xr year_box) yloc xloc.

(** The time index does not decrease. *)
Definition increasing (index : list timestamp) : Prop :=
  forall i j a b, (i < j)%nat -> index !! i = Some a -> index !! j = Some b ->
    ts_leb a b = true.

(** Every time step holds one value for each cell of the grid. *)
Definition well_shaped (arr : dataarray) : Prop :=
  Forall (fun step : timestamp * list (list Q) =>
            length (snd step) = length (lat arr) /\
            Forall (fun row => length row = length (lon arr)) (snd step))
         (steps arr).

(** A small array on a grid of two latitudes and two longitudes, with
    noon labels from the last day of 2014 to the first day of 2016. *)
Definition example_tasmax_xr : dataarray :=
  {| lat := [53.0; 54.0];
     lon := [9.0; 10.0];
     steps :=
       [ (Timestamp 2014 12 31 12 0 0 0, [[270.0; 271.0]; [272.0; 273.0]]);
         (Timestamp 2015 1 1 12 0 0 0, [[274.0; 275.0]; [276.15; 277.0]]);
         (Timestamp 2015 6 15 12 0 0 0, [[290.0; 291.0]; [298.15; 293.0]]);
         (Timestamp 2015 12 31 12 0 0 0, [[280.0; 281.0]; [273.15; 283.0]]);
         (Timestamp 2016 1 1 12 0 0 0, [[284.0; 285.0]; [286.0; 287.0]]) ] |}.


(** The label lies in the window that the notebook slices for the year. *)
Definition in_window (year_box : Z) (t : timestamp) : bool :=
  ts_leb (time_start year_box) t && ts_leb t (time_end year_box).

End Extraction.

(** ** Section 5 of the notebook: the frame that is plotted *)

Module Plot.

Import Extraction.

(** A frame of numbers indexed by time labels: the labels, and the columns
    in order, each with one entry per label; [None] is NaN. *)
Record frame : Type := Frame {
  index : list timestamp;
  data : list (string * list (option Q))
}.

(** [pd.DataFrame(index=index, columns=columns)]: every entry is NaN. *)
Definition DataFrame (index : list timestamp) (columns : list string) : frame :=
  {| index := index;
     data := map (fun c => (c, replicate (length index) None)) columns |}.

(** The column of a frame, when it has one of that name. *)
Definition column (name : string) (df : frame) : option (list (option Q)) :=
  snd <$> List.find (fun c => bool_decide (fst c = name)) (data df).

(** Replacing the entries of the column [name], or adding the column at the
    end when the frame has none of that name. *)
Fixpoint set_column (name : string) (values : list (option Q))
    (data : list (string * list (option Q))) : list (string * list (option Q)) :=
  match data with
  | [] => [(name, values)]
  | c :: data' =>
      if bool_decide (fst c = name) then (name, values) :: data'
      else c :: set_column name values data'
  end.

(** [df.loc[:, name] = values] for an array of values: there must be one
    value per label. *)
Definition loc_set (name : string) (values : list (option Q)) (df : frame)
  : result frame :=
  if decide (length values = length (index df))
  then Ok {| index := index df; data := set_column name values (data df) |}
  else Raise ValueError.

(** [df.loc[:, name] = v] for a single value, which fills the column. *)
Definition loc_fill (name : string) (v : Q) (df : frame) : frame :=
  {| index := index df;
     data := set_column name (replicate (length (index df)) (Some v)) (data df) |}.

(** The cell of the notebook that builds the frame of the chart from the
    series of the grid cell. *)
Definition tasmax_year_place_df (tasmax_year_place_xr : list (timestamp * Q))
  : result frame :=
  let df := DataFrame (map fst tasmax_year_place_xr)
                      ["Temperature"; "Summer Day Threshold"] in
  df ← loc_set "Model Temperature" (map (fun s => Some (snd s)) tasmax_year_place_xr) df;
  Ok (loc_fill "Summer Day Threshold" 25 df).

(** The two columns that the chart draws. *)
Definition plotted : list string := ["Model Temperature"; "Summer Day Threshold"].

End Plot.

(** * Properties *)

(** ** Counting summer days *)

Section SummerDaysFacts.

Import SummerDays.

Lemma gt_true_iff (x T : Q) : negb (Qle_bool x T) = true <-> T < x.
Proof.
  rewrite negb_true_iff. split.
  - intros H. apply Qnot_le_lt. intros Hle.
    apply Qle_bool_iff in Hle. congruence.
  - intros H. destruct (Qle_bool x T) eqn:E; [|reflexivity].
    apply Qle_bool_iff in E. exfalso. exact (Qlt_not_le _ _ H E).
Qed.

Lemma gt_false_iff (x T : Q) : negb (Qle_bool x T) = false <-> x <= T.
Proof. rewrite negb_false_iff. apply Qle_bool_iff. Qed.

(** The mask is taken from the array itself, so indexing with it is a
    filter of the array. *)
Lemma count_cons (x : Q) (series : list Q) (T : Q) :
  count_summer_days (x :: series) T =
  ((if negb (Qle_bool x T) then 1 else 0) + count_summer_days series T)%nat.
Proof.
  unfold count_summer_days, size. simpl.
  destruct (negb (Qle_bool x T)); reflexivity.
Qed.

Lemma count_strictly_greater (series : list Q) (T : Q) :
  count_summer_days series T = strictly_greater T series.
Proof.
  induction series as [|x series IH]; [reflexivity|].
  rewrite count_cons, IH. simpl.
  destruct (Qlt_le_dec T x) as [Hlt|Hle].
  - apply gt_true_iff in Hlt. rewrite Hlt. reflexivity.
  - apply gt_false_iff in Hle. rewrite Hle. reflexivity.
Qed.

Lemma count_app (pre post : list Q) (T : Q) :
  count_summer_days (pre ++ post) T =
  (count_summer_days pre T + count_summer_days post T)%nat.
Proof.
  induction pre as [|x pre IH]; [reflexivity|].
  rewrite <- app_comm_cons, !count_cons, IH. lia.
Qed.

(** C1: the summer-day count is the number of samples strictly greater than
    the threshold; the notebook counts at the threshold 25; a sample equal
    to the threshold adds nothing to the count, wherever it stands in the
    series; the count of the empty series is 0; and the series
    [20.0, 25.0, 25.1, 30.0] has 2 summer days at the threshold 25.0. *)
Theorem count_summer_days_strict :
  (forall (series : list Q) (T : Q),
      count_summer_days series T = strictly_greater T series) /\
  (forall series : list Q,
      no_summer_days_model series = count_summer_days series 25) /\
  (forall (pre post : list Q) (x T : Q),
      x == T ->
      count_summer_days (pre ++ x :: post) T =
      (count_summer_days pre T + count_summer_days post T)%nat) /\
  (forall T : Q, count_summer_days [] T = 0%nat) /\
  count_summer_days example_series 25.0 = 2%nat.
Proof.
  split; [exact count_strictly_greater|].
  split; [reflexivity|].
  split; [|split; reflexivity].
  intros pre post x T Heq.
  rewrite count_app, count_cons.
  assert (Hle : x <= T) by (rewrite Heq; apply Qle_refl).
  apply gt_false_iff in Hle. rewrite Hle. lia.
Qed.

(** C7: on a series whose only sample is exactly 25.0 degrees the notebook
    counts no summer day, although the day is a summer day by the
    definition the notebook quotes (a maximum of at least 25.0 degrees). *)
Theorem threshold_day_not_counted :
  no_summer_days_model [25.0] = 0%nat /\
  at_least summer_day_threshold [25.0] = 1%nat.
Proof. split; reflexivity. Qed.

(** C8: for a fixed series the count does not increase when the threshold
    is raised. *)
Theorem count_summer_days_antitone (series : list Q) (T1 T2 : Q) :
  T1 <= T2 ->
  (count_summer_days series T2 <= count_summer_days series T1)%nat.
Proof.
  intros HT. induction series as [|x series IH]; [reflexivity|].
  rewrite !count_cons.
  destruct (negb (Qle_bool x T2)) eqn:E2.
  - apply gt_true_iff in E2.
    assert (E1 : T1 < x) by (eapply Qle_lt_trans; eassumption).
    apply gt_true_iff in E1. rewrite E1. lia.
  - destruct (negb (Qle_bool x T1)); lia.
Qed.

Lemma count_summer_days_antitone_example :
  20 <= 25 /\
  (count_summer_days example_series 25%Q <=
   count_summer_days example_series 20%Q)%nat.
Proof.
  split.
  - discriminate.
  - apply (count_summer_days_antitone example_series 20 25).
    discriminate.
Defined.

End SummerDaysFacts.

(** ** The nearest grid cell *)

Section NearestCellFacts.
Import NearestCell.

Lemma fold_left_Qmin_le (vs : list Q) (v : Q) :
  fold_left Qmin vs v <= v /\ Forall (fun w => fold_left Qmin vs v <= w) vs.
Proof.
  revert v. induction vs as [|u vs IH]; intros v; simpl.
  - split; [apply Qle_refl | constructor].
  - destruct (IH (Qmin v u)) as [H1 H2]. split.
    + eapply Qle_trans; [exact H1 | apply Q.le_min_l].
    + constructor; [|exact H2].
      eapply Qle_trans; [exact H1 | apply Q.le_min_r].
Qed.

Lemma fold_left_Qmin_elem (vs : list Q) (v : Q) :
  fold_left Qmin vs v ∈ v :: vs.
Proof.
  revert v. induction vs as [|u vs IH]; intros v; simpl.
  - left.
  - specialize (IH (Qmin v u)).
    apply elem_of_cons in IH as [IH|IH].
    + rewrite IH. unfold Qmin, GenericMinMax.gmin.
      destruct (v ?= u); [left | left | right; left].
    + right. right. exact IH.
Qed.

Lemma np_min_spec (c : list (list Q)) (m : Q) :
  np_min c = Ok m ->
  m ∈ concat c /\ forall v, v ∈ concat c -> m <= v.
Proof.
  unfold np_min. destruct (concat c) as [|v vs]; [discriminate|].
  intros [= <-]. split; [apply fold_left_Qmin_elem|].
  intros w Hw. destruct (fold_left_Qmin_le vs v) as [H1 H2].
  apply elem_of_cons in Hw as [->|Hw]; [exact H1|].
  rewrite Forall_forall in H2. apply H2. exact Hw.
Qed.

Lemma np_min_Ok (c : list (list Q)) (v : Q) :
  v ∈ concat c -> exists m, np_min c = Ok m.
Proof.
  unfold np_min. destruct (concat c); [|eauto].
  intros H. inversion H.
Qed.

Lemma elem_of_concat_lookup {A : Type} (c : list (list A)) (v : A) :
  v ∈ concat c <-> exists x y, c !! x ≫= (.!! y) = Some v.
Proof.
  induction c as [|row c IH]; simpl.
  - split; [intros H; inversion H | intros (x & y & H); discriminate].
  - rewrite elem_of_app, IH, list_elem_of_lookup. split.
    + intros [[y Hy] | (x & y & H)].
      * exists 0%nat, y. exact Hy.
      * exists (S x), y. exact H.
    + intros ([|x] & y & H); simpl in H; eauto.
Qed.


Lemma elem_of_row_positions (i j : nat) (row : list bool) (p : nat * nat) :
  p ∈ row_positions i j row <->
  fst p = i /\ (j <= snd p)%nat /\ row !! (snd p - j)%nat = Some true.
Proof.
  revert j. induction row as [|b row IH]; intros j; simpl.
  - split; [intros H; inversion H | intros (_ & _ & H); discriminate].
  - assert (Hstep : p ∈ row_positions i (S j) row <->
              fst p = i /\ (j < snd p)%nat /\ (b :: row) !! (snd p - j)%nat = Some true).
    { rewrite IH. split; intros (H1 & H2 & H3); split_and!; try done.
      - replace (snd p - j)%nat with (S (snd p - S j)) by lia. exact H3.
      - replace (snd p - j)%nat with (S (snd p - S j)) in H3 by lia. exact H3. }
    assert (Hhead : forall q : nat * nat, (j <= snd q)%nat ->
              (b :: row) !! (snd q - j)%nat = Some true ->
              q = (fst q, j) /\ b = true \/ (j < snd q)%nat).
    { intros [q1 q2] Hle Hq. simpl in *.
      destruct (decide (q2 = j)) as [->|]; [|right; lia].
      left. rewrite Nat.sub_diag in Hq. simpl in Hq. by injection Hq as ->. }
    destruct b.
    + rewrite elem_of_cons, Hstep. split.
      * intros [-> | (H1 & H2 & H3)]; simpl.
        -- rewrite Nat.sub_diag. done.
        -- split_and!; [done | lia | done].
      * intros (H1 & H2 & H3).
        destruct (Hhead p H2 H3) as [[Hp _] | Hlt].
        -- left. rewrite Hp, H1. reflexivity.
        -- right. done.
    + rewrite Hstep. split.
      * intros (H1 & H2 & H3). split_and!; [done | lia | done].
      * intros (H1 & H2 & H3).
        destruct (Hhead p H2 H3) as [[_ Hb] | Hlt]; [discriminate|done].
Qed.

Lemma NoDup_row_positions (i j : nat) (row : list bool) :
  NoDup (row_positions i j row).
Proof.
  revert j. induction row as [|b row IH]; intros j; simpl; [constructor|].
  destruct b; [|apply IH].
  constructor; [|apply IH].
  rewrite elem_of_row_positions. simpl. lia.
Qed.

Lemma elem_of_positions (i : nat) (mask : list (list bool)) (p : nat * nat) :
  p ∈ positions i mask <->
  (i <= fst p)%nat /\ mask !! (fst p - i)%nat ≫= (.!! snd p) = Some true.
Proof.
  revert i. induction mask as [|row mask IH]; intros i; simpl.
  - split; [intros H; inversion H | intros (_ & H); discriminate].
  - rewrite elem_of_app, elem_of_row_positions, IH. split.
    + intros [(H1 & _ & H3) | (H1 & H2)].
      * rewrite H1, Nat.sub_diag. simpl. rewrite Nat.sub_0_r in H3. done.
      * split; [lia|].
        replace (fst p - i)%nat with (S (fst p - S i)) by lia. exact H2.
    + intros (H1 & H2).
      destruct (decide (fst p = i)) as [Heq|Hne].
      * left. rewrite Heq, Nat.sub_diag in H2. simpl in H2.
        rewrite Nat.sub_0_r. split_and!; [done | lia | done].
      * right. split; [lia|].
        replace (fst p - i)%nat with (S (fst p - S i)) in H2 by lia. exact H2.
Qed.

Lemma NoDup_positions (i : nat) (mask : list (list bool)) :
  NoDup (positions i mask).
Proof.
  revert i. induction mask as [|row mask IH]; intros i; simpl; [constructor|].
  apply NoDup_app. split_and!; [apply NoDup_row_positions | | apply IH].
  intros p Hrow Hrest.
  apply elem_of_row_positions in Hrow as (H1 & _).
  apply elem_of_positions in Hrest as (H2 & _). lia.
Qed.


Lemma entry_eq_scalar (c : list (list Q)) (m : Q) (x y : nat) :
  eq_scalar c m !! x ≫= (.!! y) = Some true <->
  exists v, c !! x ≫= (.!! y) = Some v /\ v == m.
Proof.
  unfold eq_scalar. rewrite list_lookup_fmap.
  destruct (c !! x) as [row|]; simpl.
  - rewrite list_lookup_fmap. destruct (row !! y) as [v|]; simpl.
    + split.
      * intros [= H]. exists v. split; [done|]. by apply Qeq_bool_iff.
      * intros (w & [= <-] & H). f_equal. by apply Qeq_bool_iff.
    + split; [discriminate | intros (? & ? & _); discriminate].
  - split; [discriminate | intros (? & ? & _); discriminate].
Qed.

Lemma entry_np_maximum (a b : list Q) (x y : nat) :
  np_maximum a b !! x ≫= (.!! y) =
  match a !! x, b !! y with
  | Some p, Some q => Some (Qmax p q)
  | _, _ => None
  end.
Proof.
  unfold np_maximum. rewrite list_lookup_fmap.
  destruct (a !! x) as [p|]; simpl; [|reflexivity].
  rewrite list_lookup_fmap. destruct (b !! y); reflexivity.
Qed.

(** The array [c] of the notebook holds, at position [(x, y)], the cost of
    the grid cell in row [y] and column [x]. *)
Lemma entry_cost (lat lon : list Q) (latitude longitude : Q) (x y : nat) (v : Q) :
  np_maximum (abs_diff lon longitude) (abs_diff lat latitude) !! x ≫= (.!! y) = Some v ->
  exists w, cost lat lon latitude longitude y x = Some w /\ w == v.
Proof.
  rewrite entry_np_maximum. unfold abs_diff, cost.
  rewrite !list_lookup_fmap.
  destruct (lon !! x) as [lo|], (lat !! y) as [la|]; simpl; try discriminate.
  intros [= <-]. eexists. split; [reflexivity | apply Q.max_comm].
Qed.

Lemma cost_entry (lat lon : list Q) (latitude longitude : Q) (x y : nat) (w : Q) :
  cost lat lon latitude longitude y x = Some w ->
  exists v,
    np_maximum (abs_diff lon longitude) (abs_diff lat latitude) !! x ≫= (.!! y) = Some v /\
    v == w.
Proof.
  rewrite entry_np_maximum. unfold abs_diff, cost.
  rewrite !list_lookup_fmap.
  destruct (lat !! y) as [la|], (lon !! x) as [lo|]; simpl; try discriminate.
  intros [= <-]. eexists. split; [reflexivity | apply Q.max_comm].
Qed.

(** What the cell computes, step by step. *)
Lemma nearest_cell_unfold (lat lon : list Q) (latitude longitude : Q) :
  nearest_cell lat lon latitude longitude =
  let c := np_maximum (abs_diff lon longitude) (abs_diff lat latitude) in
  match np_min c with
  | Ok m =>
      match positions 0 (eq_scalar c m) with
      | [p] => Ok p
      | _ => Raise ValueError
      end
  | Raise e => Raise e
  end.
Proof.
  unfold nearest_cell, np_where. simpl.
  destruct (np_min _) as [m|e]; simpl; [|reflexivity].
  destruct (positions 0 _) as [|[x y] [|q ps]]; reflexivity.
Qed.

(** The positions that [np.where] reports are the cells of least cost. *)
Lemma positions_minimizes (lat lon : list Q) (latitude longitude m : Q) (x y : nat) :
  let c := np_maximum (abs_diff lon longitude) (abs_diff lat latitude) in
  np_min c = Ok m ->
  (x, y) ∈ positions 0 (eq_scalar c m) <-> minimizes lat lon latitude longitude y x.
Proof.
  intros c Hmin. apply np_min_spec in Hmin as [Hm Hle].
  rewrite elem_of_positions. simpl. rewrite Nat.sub_0_r, entry_eq_scalar.
  split.
  - intros (_ & v & Hv & Hvm).
    destruct (entry_cost _ _ _ _ _ _ _ Hv) as (w & Hw & Hwv).
    exists w. split; [exact Hw|].
    intros i j w' Hw'.
    destruct (cost_entry _ _ _ _ _ _ _ Hw') as (v' & Hv' & Hvw').
    rewrite Hwv, Hvm, <- Hvw'. apply Hle.
    apply elem_of_concat_lookup. eauto.
  - intros (w & Hw & Hleast). split; [lia|].
    destruct (cost_entry _ _ _ _ _ _ _ Hw) as (v & Hv & Hvw).
    exists v. split; [exact Hv|].
    apply Qle_antisym.
    + apply elem_of_concat_lookup in Hm as (x0 & y0 & H0).
      destruct (entry_cost _ _ _ _ _ _ _ H0) as (w0 & Hw0 & Hw0m).
      rewrite Hvw, <- Hw0m. eapply Hleast. exact Hw0.
    + apply Hle. apply elem_of_concat_lookup. eauto.
Qed.

Lemma NoDup_singleton_all {A : Type} (l : list A) (x : A) :
  NoDup l -> x ∈ l -> (forall y, y ∈ l -> y = x) -> l = [x].
Proof.
  intros Hnd Hx Hall. destruct l as [|a l]; [inversion Hx|].
  assert (a = x) as -> by (apply Hall; left).
  destruct l as [|b l]; [reflexivity|].
  assert (b = x) as -> by (apply Hall; right; left).
  apply NoDup_cons in Hnd as [Hnd _]. exfalso. apply Hnd. left.
Qed.

(** A cell is returned exactly when it is the only cell of least cost. *)
Lemma nearest_cell_Ok_iff (lat lon : list Q) (latitude longitude : Q) (xloc yloc : nat) :
  nearest_cell lat lon latitude longitude = Ok (xloc, yloc) <->
  minimizes lat lon latitude longitude yloc xloc /\
  forall row col, minimizes lat lon latitude longitude row col ->
    (row, col) = (yloc, xloc).
Proof.
  rewrite nearest_cell_unfold. cbv zeta.
  set (c := np_maximum (abs_diff lon longitude) (abs_diff lat latitude)).
  split.
  - destruct (np_min c) as [m|e] eqn:Hmin; [|discriminate].
    pose proof (fun x y => positions_minimizes lat lon latitude longitude m x y Hmin) as Hpos.
    cbv zeta in Hpos. fold c in Hpos.
    destruct (positions 0 (eq_scalar c m)) as [|p [|q ps]]; try discriminate.
    intros [= ->]. split.
    + apply Hpos. left.
    + intros row col Hrc. apply Hpos in Hrc.
      apply list_elem_of_singleton in Hrc. by injection Hrc as -> ->.
  - intros [Hyx Huniq].
    assert (Hne : exists m, np_min c = Ok m).
    { destruct Hyx as (w & Hw & _).
      destruct (cost_entry _ _ _ _ _ _ _ Hw) as (v & Hv & _).
      apply (np_min_Ok c v). apply elem_of_concat_lookup. eauto. }
    destruct Hne as [m Hmin]. rewrite Hmin.
    pose proof (fun x y => positions_minimizes lat lon latitude longitude m x y Hmin) as Hpos.
    cbv zeta in Hpos. fold c in Hpos.
    rewrite (NoDup_singleton_all (positions 0 (eq_scalar c m)) (xloc, yloc)).
    + reflexivity.
    + apply NoDup_positions.
    + apply Hpos. exact Hyx.
    + intros [x y] Hp. apply Hpos, Huniq in Hp. by injection Hp as -> ->.
Qed.


Lemma nearest_cell_tie (lat lon : list Q) (latitude longitude : Q) :
  tie lat lon latitude longitude ->
  nearest_cell lat lon latitude longitude = Raise ValueError.
Proof.
  intros (r1 & c1 & r2 & c2 & Hne & H1 & H2).
  rewrite nearest_cell_unfold. cbv zeta.
  set (c := np_maximum (abs_diff lon longitude) (abs_diff lat latitude)).
  assert (Hmin : exists m, np_min c = Ok m).
  { destruct H1 as (w & Hw & _).
    destruct (cost_entry _ _ _ _ _ _ _ Hw) as (v & Hv & _).
    apply (np_min_Ok c v). apply elem_of_concat_lookup. eauto. }
  destruct Hmin as [m Hmin]. rewrite Hmin.
  pose proof (fun x y => positions_minimizes lat lon latitude longitude m x y Hmin) as Hpos.
  cbv zeta in Hpos. fold c in Hpos.
  apply Hpos in H1, H2.
  destruct (positions 0 (eq_scalar c m)) as [|p [|q ps]]; [inversion H1 | | reflexivity].
  apply list_elem_of_singleton in H1, H2. congruence.
Qed.

Lemma nearest_cell_Raise (lat lon : list Q) (latitude longitude : Q) (e : exn) :
  nearest_cell lat lon latitude longitude = Raise e ->
  e = ValueError /\ (lat = [] \/ lon = [] \/ tie lat lon latitude longitude).
Proof.
  rewrite nearest_cell_unfold. cbv zeta.
  set (c := np_maximum (abs_diff lon longitude) (abs_diff lat latitude)).
  destruct (np_min c) as [m|e'] eqn:Hmin.
  - pose proof (fun x y => positions_minimizes lat lon latitude longitude m x y Hmin) as Hpos.
    cbv zeta in Hpos. fold c in Hpos.
    pose proof (NoDup_positions 0 (eq_scalar c m)) as Hnd.
    destruct (positions 0 (eq_scalar c m)) as [|[x1 y1] [|[x2 y2] ps]] eqn:Hps.
    + exfalso. apply np_min_spec in Hmin as [Hm _].
      apply elem_of_concat_lookup in Hm as (x0 & y0 & H0).
      assert (Hin : (x0, y0) ∈ positions 0 (eq_scalar c m)).
      { apply elem_of_positions. simpl. split; [lia|].
        rewrite Nat.sub_0_r. apply entry_eq_scalar. exists m. split; [done|reflexivity]. }
      rewrite Hps in Hin. inversion Hin.
    + discriminate.
    + intros [= <-]. split; [reflexivity|]. right. right.
      exists y1, x1, y2, x2. split_and!.
      * apply NoDup_cons in Hnd as [Hnd _]. intros [= -> ->]. apply Hnd. left.
      * apply Hpos. left.
      * apply Hpos. right. left.
  - intros [= <-].
    unfold np_min in Hmin. destruct (concat c) as [|v vs] eqn:Hc; [|discriminate].
    injection Hmin as <-. split; [reflexivity|].
    destruct lat as [|la lat]; [by left|].
    destruct lon as [|lo lon]; [by right; left|].
    discriminate Hc.
Qed.

(** A returned pair is a cell of the grid, and no cell costs less. *)
Lemma nearest_cell_Ok_least (L M : list Q) (targetLat targetLon : Q) (row col : nat) :
  nearest_cell L M targetLat targetLon = Ok (col, row) ->
  exists la lo,
    L !! row = Some la /\ M !! col = Some lo /\
    forall i j la' lo', L !! i = Some la' -> M !! j = Some lo' ->
      Qmax (Qabs (la - targetLat)) (Qabs (lo - targetLon)) <=
      Qmax (Qabs (la' - targetLat)) (Qabs (lo' - targetLon)).
Proof.
  intros H. apply nearest_cell_Ok_iff in H as [(v & Hv & Hleast) _].
  unfold cost in Hv.
  destruct (L !! row) as [la|] eqn:Hla; [|discriminate].
  destruct (M !! col) as [lo|] eqn:Hlo; [|discriminate].
  injection Hv as <-. exists la, lo. split_and!; [done..|].
  intros i j la' lo' Hi Hj. apply (Hleast i j).
  unfold cost. rewrite Hi, Hj. reflexivity.
Qed.



(** C4, as stated, fails: on the grid with latitudes 0 and 2 and the single
    longitude 0, the target (1, 0) is as far from the first cell as from
    the second, and the resolution returns no cell. *)
Lemma nearest_cell_tie_no_cell :
  tie [0; 2] [0] 1 0 /\
  ~ exists cell, nearest_cell [0; 2] [0] 1 0 = Ok cell.
Proof.
  split.
  - exists 0%nat, 0%nat, 1%nat, 0%nat. split_and!; [discriminate | |].
    + exists 1. split; [reflexivity|].
      intros [|[|i]] [|j] w; simpl; intros [= <-]; discriminate.
    + exists 1. split; [reflexivity|].
      intros [|[|i]] [|j] w; simpl; intros [= <-]; discriminate.
  - intros [cell H]. vm_compute in H. discriminate.
Qed.

(** C4, amended: when several cells tie for the least cost the resolution
    fails, the unpacking into single indices raising [ValueError]; a cell
    is returned exactly when the grid is not empty and no two cells tie. *)
Theorem nearest_cell_tie_fails (L M : list Q) (targetLat targetLon : Q) :
  (tie L M targetLat targetLon ->
   nearest_cell L M targetLat targetLon = Raise ValueError) /\
  ((exists cell, nearest_cell L M targetLat targetLon = Ok cell) <->
   L <> [] /\ M <> [] /\ ~ tie L M targetLat targetLon).
Proof.
  split; [apply nearest_cell_tie|]. split.
  - intros [[col row] H]. split_and!.
    + apply nearest_cell_Ok_least in H as (la & _ & Hla & _). by intros ->.
    + apply nearest_cell_Ok_least in H as (_ & lo & _ & Hlo & _). by intros ->.
    + intros Htie. apply nearest_cell_tie in Htie. congruence.
  - intros (HL & HM & Htie).
    destruct (nearest_cell L M targetLat targetLon) as [cell|e] eqn:H; [eauto|].
    apply nearest_cell_Raise in H as [_ [?|[?|?]]]; done.
Qed.

Lemma nearest_cell_tie_fails_example :
  nearest_cell [0; 2] [0] 1 0 = Raise ValueError.
Proof.
  apply (nearest_cell_tie_fails [0; 2] [0] 1 0).
  exists 0%nat, 0%nat, 1%nat, 0%nat. split_and!; [discriminate | |].
  - exists 1. split; [reflexivity|].
    intros [|[|i]] [|j] w; simpl; intros [= <-]; discriminate.
  - exists 1. split; [reflexivity|].
    intros [|[|i]] [|j] w; simpl; intros [= <-]; discriminate.
Defined.

Lemma Qabs_le_0 (x : Q) : Qabs x <= 0 -> x == 0.
Proof.
  intros H. apply Qabs_Qle_condition in H as [H1 H2].
  apply Qle_antisym; [exact H2 | exact H1].
Qed.

Lemma Qminus_diag (x : Q) : x - x == 0.
Proof. ring. Qed.

Lemma cost_at_target (x y : Q) : Qmax (Qabs (x - x)) (Qabs (y - y)) == 0.
Proof.
  rewrite !Qminus_diag. reflexivity.
Qed.

Lemma cost_le_0 (la lo targetLat targetLon : Q) :
  Qmax (Qabs (la - targetLat)) (Qabs (lo - targetLon)) <= 0 ->
  la == targetLat /\ lo == targetLon.
Proof.
  intros H. apply Q.max_lub_iff in H as [H1 H2].
  apply Qabs_le_0 in H1, H2. split.
  - rewrite <- (Qplus_0_l targetLat), <- H1. ring.
  - rewrite <- (Qplus_0_l targetLon), <- H2. ring.
Qed.

Lemma cost_nonneg (la lo targetLat targetLon : Q) :
  0 <= Qmax (Qabs (la - targetLat)) (Qabs (lo - targetLon)).
Proof.
  eapply Qle_trans; [apply Qabs_nonneg | apply Q.le_max_l].
Qed.

(** C5: the indices returned lie within the bounds of the grid; when the
    target point is the coordinate pair (L[i], M[j]) of the grid, the
    returned cell has exactly these coordinates and cost 0, and it is the
    cell (i, j) itself, which is returned whenever no other index carries
    the same coordinate. *)
Theorem nearest_cell_in_bounds_exact (L M : list Q) (targetLat targetLon : Q) :
  (forall row col, nearest_cell L M targetLat targetLon = Ok (col, row) ->
     (row < length L)%nat /\ (col < length M)%nat /\
     forall i j, L !! i = Some targetLat -> M !! j = Some targetLon ->
       exists la lo,
         L !! row = Some la /\ M !! col = Some lo /\
         la == targetLat /\ lo == targetLon /\
         Qmax (Qabs (la - targetLat)) (Qabs (lo - targetLon)) == 0) /\
  (forall i j, L !! i = Some targetLat -> M !! j = Some targetLon ->
     (forall i' la, L !! i' = Some la -> la == targetLat -> i' = i) ->
     (forall j' lo, M !! j' = Some lo -> lo == targetLon -> j' = j) ->
     nearest_cell L M targetLat targetLon = Ok (j, i)).
Proof.
  split.
  - intros row col H.
    apply nearest_cell_Ok_least in H as (la & lo & Hla & Hlo & Hleast).
    split_and!; [by eapply lookup_lt_Some..|].
    intros i j Hi Hj. exists la, lo.
    specialize (Hleast i j _ _ Hi Hj). rewrite cost_at_target in Hleast.
    destruct (cost_le_0 _ _ _ _ Hleast) as [H1 H2].
    split_and!; [done..|].
    apply Qle_antisym; [exact Hleast | apply cost_nonneg].
  - intros i j Hi Hj HL HM. apply nearest_cell_Ok_iff. split.
    + exists (Qmax (Qabs (targetLat - targetLat)) (Qabs (targetLon - targetLon))).
      unfold cost. rewrite Hi, Hj. split; [reflexivity|].
      intros i' j' w.
      destruct (L !! i') as [la|], (M !! j') as [lo|]; try discriminate.
      intros [= <-]. rewrite cost_at_target. apply cost_nonneg.
    + intros row col (v & Hv & Hleast). unfold cost in Hv.
      destruct (L !! row) as [la|] eqn:Hla; [|discriminate].
      destruct (M !! col) as [lo|] eqn:Hlo; [|discriminate].
      injection Hv as <-.
      specialize (Hleast i j _ ltac:(unfold cost; rewrite Hi, Hj; reflexivity)).
      rewrite cost_at_target in Hleast.
      destruct (cost_le_0 _ _ _ _ Hleast) as [H1 H2].
      f_equal; [eapply HL | eapply HM]; eassumption.
Qed.

Lemma nearest_cell_in_bounds_exact_example :
  nearest_cell [52.0; 53.0; 54.0] [9.0; 10.0; 11.0] 54.0 9.0 = Ok (0%nat, 2%nat).
Proof.
  apply (nearest_cell_in_bounds_exact [52.0; 53.0; 54.0] [9.0; 10.0; 11.0] 54.0 9.0).
  - reflexivity.
  - reflexivity.
  - intros [|[|[|i']]] la; simpl; intros [= <-]; [discriminate.. | reflexivity].
  - intros [|[|[|j']]] lo; simpl; intros [= <-]; [reflexivity | discriminate..].
Defined.

End NearestCellFacts.

(** ** The rectangle around the cell *)

Section MapRectFacts.

Import MapRect.

Lemma py_index_nat {A : Type} (xs : list A) (k : nat) (x : A) :
  xs !! k = Some x -> py_index xs (Z.of_nat k) = Ok x.
Proof.
  intros H. pose proof (lookup_lt_Some _ _ _ H) as Hlt.
  unfold py_index, py_position.
  destruct (Z.ltb_spec (Z.of_nat k) 0); [lia|].
  destruct (Z.leb_spec 0 (Z.of_nat k)); [|lia].
  destruct (Z.ltb_spec (Z.of_nat k) (Z.of_nat (length xs))); [|lia].
  simpl. rewrite Nat2Z.id, H. reflexivity.
Qed.

Lemma py_index_length {A : Type} (xs : list A) :
  py_index xs (Z.of_nat (length xs)) = Raise IndexError.
Proof.
  unfold py_index, py_position.
  destruct (Z.ltb_spec (Z.of_nat (length xs)) 0); [lia|].
  destruct (Z.leb_spec 0 (Z.of_nat (length xs))); [|lia].
  destruct (Z.ltb_spec (Z.of_nat (length xs)) (Z.of_nat (length xs))); [lia|].
  reflexivity.
Qed.

Lemma py_index_minus_1 {A : Type} (xs : list A) (x : A) :
  xs !! (length xs - 1)%nat = Some x -> py_index xs (-1) = Ok x.
Proof.
  intros H. pose proof (lookup_lt_Some _ _ _ H) as Hlt.
  unfold py_index, py_position. simpl.
  destruct (Z.leb_spec 0 (-1 + Z.of_nat (length xs))); [|lia].
  destruct (Z.ltb_spec (-1 + Z.of_nat (length xs)) (Z.of_nat (length xs))); [|lia].
  simpl. replace (Z.to_nat (-1 + Z.of_nat (length xs))) with (length xs - 1)%nat by lia.
  rewrite H. reflexivity.
Qed.

(** Every read of the rectangle either succeeds or is out of bounds. *)
Lemma py_index_Raise {A : Type} (xs : list A) (i : Z) (e : exn) :
  py_index xs i = Raise e -> e = IndexError.
Proof.
  unfold py_index, py_position.
  destruct ((0 <=? _)%Z && _); simpl; [|congruence].
  destruct (xs !! _); congruence.
Qed.

Lemma midpoint_Raise (coord : list Q) (k loc : Z) (e : exn) :
  midpoint coord k loc = Raise e -> e = IndexError.
Proof.
  unfold midpoint.
  destruct (py_index coord k) eqn:H1; simpl; [|intros [= <-]; eauto using py_index_Raise].
  destruct (py_index coord loc) eqn:H2; simpl; [discriminate|].
  intros [= <-]; eauto using py_index_Raise.
Qed.

(** The upper edge of the last index reads one past the end. *)
Lemma midpoint_last (coord : list Q) (loc : nat) :
  S loc = length coord ->
  midpoint coord (Z.of_nat loc + 1) (Z.of_nat loc) = Raise IndexError.
Proof.
  intros H. unfold midpoint.
  replace (Z.of_nat loc + 1)%Z with (Z.of_nat (length coord)) by lia.
  rewrite py_index_length. reflexivity.
Qed.

(** The upper edge of any other index is the mean with the next value. *)
Lemma midpoint_next (coord : list Q) (loc : nat) :
  (S loc < length coord)%nat ->
  exists a b, coord !! S loc = Some a /\ coord !! loc = Some b /\
    midpoint coord (Z.of_nat loc + 1) (Z.of_nat loc) = Ok ((a + b) / 2).
Proof.
  intros H.
  destruct (lookup_lt_is_Some_2 coord (S loc)) as [a Ha]; [lia|].
  destruct (lookup_lt_is_Some_2 coord loc) as [b Hb]; [lia|].
  exists a, b. split_and!; [done..|].
  unfold midpoint. replace (Z.of_nat loc + 1)%Z with (Z.of_nat (S loc)) by lia.
  rewrite (py_index_nat _ _ _ Ha), (py_index_nat _ _ _ Hb). reflexivity.
Qed.

(** The lower edge of index 0 reads index -1, the far end of the
    coordinate. *)
Lemma midpoint_first (coord : list Q) :
  (0 < length coord)%nat ->
  exists a b, coord !! (length coord - 1)%nat = Some a /\ coord !! 0%nat = Some b /\
    midpoint coord (Z.of_nat 0 - 1) (Z.of_nat 0) = Ok ((a + b) / 2).
Proof.
  intros H.
  destruct (lookup_lt_is_Some_2 coord (length coord - 1)) as [a Ha]; [lia|].
  destruct (lookup_lt_is_Some_2 coord 0) as [b Hb]; [lia|].
  exists a, b. split_and!; [done..|].
  unfold midpoint. change (Z.of_nat 0 - 1)%Z with (-1)%Z.
  rewrite (py_index_minus_1 _ _ Ha), (py_index_nat _ 0 _ Hb). reflexivity.
Qed.

(** The lower edge of any other index is the mean with the value before. *)
Lemma midpoint_previous (coord : list Q) (loc : nat) :
  (0 < loc < length coord)%nat ->
  exists a b, coord !! (loc - 1)%nat = Some a /\ coord !! loc = Some b /\
    midpoint coord (Z.of_nat loc - 1) (Z.of_nat loc) = Ok ((a + b) / 2).
Proof.
  intros H.
  destruct (lookup_lt_is_Some_2 coord (loc - 1)) as [a Ha]; [lia|].
  destruct (lookup_lt_is_Some_2 coord loc) as [b Hb]; [lia|].
  exists a, b. split_and!; [done..|].
  unfold midpoint. replace (Z.of_nat loc - 1)%Z with (Z.of_nat (loc - 1)) by lia.
  rewrite (py_index_nat _ _ _ Ha), (py_index_nat _ _ _ Hb). reflexivity.
Qed.

Lemma midpoint_lower_Ok (coord : list Q) (loc : nat) :
  (loc < length coord)%nat ->
  exists m, midpoint coord (Z.of_nat loc - 1) (Z.of_nat loc) = Ok m.
Proof.
  intros H. destruct loc as [|loc].
  - destruct (midpoint_first coord) as (a & b & _ & _ & Hm); [lia|]. eauto.
  - destruct (midpoint_previous coord (S loc)) as (a & b & _ & _ & Hm); [lia|]. eauto.
Qed.

(** C9: for a resolved cell (yloc, xloc) of the grid, the rectangle reads
    the coordinates at yloc - 1, yloc + 1, xloc - 1 and xloc + 1.  At the
    last index the read at +1 is out of bounds and the rectangle fails with
    [IndexError]; at index 0 the read at -1 does not fail but takes the
    coordinate at the far end of the grid; so the rectangle is computed
    exactly when neither index is the last one, and it is the rectangle
    between the neighbouring coordinates only for an interior cell. *)
Theorem bounds_interior_only (lat lon : list Q) (yloc xloc : nat) :
  (yloc < length lat)%nat -> (xloc < length lon)%nat ->
  (S yloc = length lat ->
     rect_lat2_model lat (Z.of_nat yloc) = Raise IndexError /\
     bounds lat lon (Z.of_nat yloc) (Z.of_nat xloc) = Raise IndexError) /\
  (S xloc = length lon ->
     rect_lon2_model lon (Z.of_nat xloc) = Raise IndexError /\
     bounds lat lon (Z.of_nat yloc) (Z.of_nat xloc) = Raise IndexError) /\
  (yloc = 0%nat ->
     exists a b, lat !! (length lat - 1)%nat = Some a /\ lat !! 0%nat = Some b /\
       rect_lat1_model lat (Z.of_nat yloc) = Ok ((a + b) / 2)) /\
  (xloc = 0%nat ->
     exists a b, lon !! (length lon - 1)%nat = Some a /\ lon !! 0%nat = Some b /\
       rect_lon1_model lon (Z.of_nat xloc) = Ok ((a + b) / 2)) /\
  ((0 < yloc)%nat -> (S yloc < length lat)%nat ->
   (0 < xloc)%nat -> (S xloc < length lon)%nat ->
     exists s y n w x e,
       lat !! (yloc - 1)%nat = Some s /\ lat !! yloc = Some y /\
       lat !! S yloc = Some n /\
       lon !! (xloc - 1)%nat = Some w /\ lon !! xloc = Some x /\
       lon !! S xloc = Some e /\
       bounds lat lon (Z.of_nat yloc) (Z.of_nat xloc) =
       Ok (((s + y) / 2, (w + x) / 2), ((n + y) / 2, (e + x) / 2))) /\
  ((exists b, bounds lat lon (Z.of_nat yloc) (Z.of_nat xloc) = Ok b) <->
   (S yloc < length lat)%nat /\ (S xloc < length lon)%nat).
Proof.
  intros Hy Hx.
  destruct (midpoint_lower_Ok lat yloc Hy) as [lat1 Hlat1].
  destruct (midpoint_lower_Ok lon xloc Hx) as [lon1 Hlon1].
  assert (Hfail_y : S yloc = length lat ->
            bounds lat lon (Z.of_nat yloc) (Z.of_nat xloc) = Raise IndexError).
  { intros Hlast. unfold bounds, rect_lat1_model, rect_lon1_model, rect_lat2_model.
    rewrite Hlat1, Hlon1, (midpoint_last lat yloc Hlast). reflexivity. }
  assert (Hfail_x : S xloc = length lon ->
            bounds lat lon (Z.of_nat yloc) (Z.of_nat xloc) = Raise IndexError).
  { intros Hlast.
    unfold bounds, rect_lat1_model, rect_lon1_model, rect_lat2_model, rect_lon2_model.
    rewrite Hlat1, Hlon1, (midpoint_last lon xloc Hlast). simpl.
    destruct (midpoint lat (Z.of_nat yloc + 1) (Z.of_nat yloc)) as [lat2|e] eqn:Hlat2;
      simpl; [reflexivity|].
    by rewrite (midpoint_Raise _ _ _ _ Hlat2). }
  assert (Hok : (S yloc < length lat)%nat -> (S xloc < length lon)%nat ->
            exists lat2 lon2,
              bounds lat lon (Z.of_nat yloc) (Z.of_nat xloc) =
              Ok ((lat1, lon1), (lat2, lon2))).
  { intros Hy' Hx'.
    destruct (midpoint_next lat yloc Hy') as (n & y & _ & _ & Hlat2).
    destruct (midpoint_next lon xloc Hx') as (e & x & _ & _ & Hlon2).
    unfold bounds, rect_lat1_model, rect_lon1_model, rect_lat2_model, rect_lon2_model.
    rewrite Hlat1, Hlon1, Hlat2, Hlon2. simpl. eauto. }
  split_and!.
  - intros Hlast. split; [apply midpoint_last, Hlast | apply Hfail_y, Hlast].
  - intros Hlast. split; [apply midpoint_last, Hlast | apply Hfail_x, Hlast].
  - intros ->. apply midpoint_first. lia.
  - intros ->. apply midpoint_first. lia.
  - intros Hy0 Hy' Hx0 Hx'.
    destruct (midpoint_previous lat yloc) as (s & y & Hs & Hyy & Hm1); [lia|].
    destruct (midpoint_previous lon xloc) as (w & x & Hw & Hxx & Hm2); [lia|].
    destruct (midpoint_next lat yloc Hy') as (n & y' & Hn & Hyy' & Hm3).
    destruct (midpoint_next lon xloc Hx') as (e & x' & He & Hxx' & Hm4).
    assert (y' = y) as -> by congruence. assert (x' = x) as -> by congruence.
    exists s, y, n, w, x, e. split_and!; [done..|].
    unfold bounds, rect_lat1_model, rect_lon1_model, rect_lat2_model, rect_lon2_model.
    rewrite Hm1, Hm2, Hm3, Hm4. reflexivity.
  - split.
    + intros [b Hb].
      destruct (decide (S yloc = length lat)) as [E|];
        [rewrite (Hfail_y E) in Hb; discriminate|].
      destruct (decide (S xloc = length lon)) as [E|];
        [rewrite (Hfail_x E) in Hb; discriminate|].
      lia.
    + intros [Hy' Hx']. destruct (Hok Hy' Hx') as (lat2 & lon2 & H). eauto.
Qed.

Lemma bounds_interior_only_example :
  rect_lat2_model [52.0; 53.0; 54.0] 2 = Raise IndexError /\
  bounds [52.0; 53.0; 54.0] [9.0; 10.0; 11.0] 2 0 = Raise IndexError.
Proof.
  refine (proj1 (bounds_interior_only [52.0; 53.0; 54.0] [9.0; 10.0; 11.0] 2 0 _ _) _);
    simpl; lia.
Defined.

End MapRectFacts.

(** ** The catalog file that covers a year *)

Section CatalogFacts.

Import Catalog.

Lemma row_mask_covers (Y : Z) (r : gmap string cell) :
  row_mask Y r = true <-> covers Y r.
Proof.
  unfold row_mask, covers. split.
  - destruct (r !! "start_year") as [[|s|]|]; try discriminate.
    destruct (r !! "end_year") as [[|e|]|]; try discriminate.
    intros H. apply andb_true_iff in H as [H1 H2].
    exists s, e. split_and!; [done | done | lia | lia].
  - intros (s & e & -> & -> & H1 & H2).
    apply andb_true_iff. split; lia.
Qed.

Lemma masks_of_rows (Y : Z) (rs : list (gmap string cell)) :
  Forall (fun r => exists s e : Z,
            r !! "start_year" = Some (Int s) /\ r !! "end_year" = Some (Int e)) rs ->
  exists after_start before_end,
    ge_series Y (map (fun r => default NaN (r !! "start_year")) rs) = Ok after_start /\
    le_series Y (map (fun r => default NaN (r !! "end_year")) rs) = Ok before_end /\
    zip_with andb after_start before_end = map (row_mask Y) rs.
Proof.
  induction 1 as [|r rs (s & e & Hs & He) _ (a & b & Ha & Hb & Hab)].
  - exists [], []. done.
  - exists ((s <=? Y)%Z :: a), ((Y <=? e)%Z :: b).
    unfold ge_series, le_series in *. simpl.
    rewrite Hs, He, Ha, Hb. simpl. split_and!; [done..|].
    unfold row_mask at 1. rewrite Hs, He, Hab. reflexivity.
Qed.

(** Indexing with a mask computed row by row keeps the rows that pass the
    test, in their order. *)
Lemma bool_index_map {A : Type} (f : A -> bool) (xs : list A) :
  sublist (SummerDays.bool_index xs (map f xs)) xs /\
  forall x, x ∈ SummerDays.bool_index xs (map f xs) <-> x ∈ xs /\ f x = true.
Proof.
  induction xs as [|a xs [IH1 IH2]]; simpl.
  - split; [constructor|]. intros x. split; [intros H; inversion H | intros [H _]; inversion H].
  - destruct (f a) eqn:Ha; split.
    + by constructor.
    + intros x. rewrite !elem_of_cons, IH2.
      split; [intros [->|[? ?]]; auto | intros [[->|?] ?]; auto].
    + by constructor.
    + intros x. rewrite elem_of_cons, IH2.
      split; [intros [? ?]; auto | intros [[->|?] ?]; [congruence | auto]].
Qed.

Lemma bool_index_map_nil {A : Type} (f : A -> bool) (xs : list A) :
  (forall x, x ∈ xs -> f x = false) -> SummerDays.bool_index xs (map f xs) = [].
Proof.
  intros H. destruct (SummerDays.bool_index xs (map f xs)) as [|x l] eqn:E; [done|].
  assert (Hx : x ∈ SummerDays.bool_index xs (map f xs)) by (rewrite E; left).
  apply bool_index_map in Hx as [Hx Hfx]. rewrite (H x Hx) in Hfx. discriminate.
Qed.

(** C2: on a frame with the year columns, the selection returns, in
    catalog order, exactly the records whose interval contains the year:
    every selected record has start_year <= Y <= end_year.  When some
    record contains the year, the path is that of the first selected
    record; when none does, the selection is empty and taking its first
    path fails with [IndexError]. *)
Theorem selected_file_covers (query_result_df : dataframe) (Y : Z) :
  has_years query_result_df ->
  exists sel,
    selected_file Y query_result_df = Ok sel /\
    columns sel = columns query_result_df /\
    sublist (rows sel) (rows query_result_df) /\
    (forall r, r ∈ rows sel <-> r ∈ rows query_result_df /\ covers Y r) /\
    ((exists r, r ∈ rows query_result_df /\ covers Y r) ->
       exists r rest, rows sel = r :: rest /\ covers Y r /\
         selected_path sel = Ok (default NaN (r !! "zarr_path"))) /\
    ((forall r, r ∈ rows query_result_df -> ~ covers Y r) ->
       rows sel = [] /\ selected_path sel = Raise IndexError).
Proof.
  intros (Hstart & Hend & Hpath & Hrows).
  destruct (masks_of_rows Y _ Hrows) as (a & b & Ha & Hb & Hab).
  exists (mask_rows query_result_df (zip_with andb a b)).
  destruct (bool_index_map (row_mask Y) (rows query_result_df)) as [Hsub Hmem].
  assert (Hsel : forall r, r ∈ rows (mask_rows query_result_df (zip_with andb a b)) <->
                   r ∈ rows query_result_df /\ covers Y r).
  { intros r. simpl. rewrite Hab, Hmem, row_mask_covers. reflexivity. }
  split_and!.
  - unfold selected_file, getitem.
    rewrite !decide_True by done. simpl. rewrite Ha. simpl. rewrite Hb. reflexivity.
  - reflexivity.
  - simpl. rewrite Hab. exact Hsub.
  - exact Hsel.
  - intros (r0 & Hr0). apply Hsel in Hr0.
    unfold selected_path, getitem. rewrite decide_True by done.
    destruct (rows (mask_rows query_result_df (zip_with andb a b))) as [|r rest] eqn:E;
      [inversion Hr0|].
    exists r, rest. split_and!; [done | | done].
    apply (Hsel r). left.
  - intros Hnone.
    assert (E : rows (mask_rows query_result_df (zip_with andb a b)) = []).
    { simpl. rewrite Hab. apply bool_index_map_nil. intros r Hr.
      destruct (row_mask Y r) eqn:Hm; [|done].
      apply row_mask_covers in Hm. by apply Hnone in Hm. }
    split; [exact E|].
    unfold selected_path, getitem. rewrite decide_True by done. rewrite E. reflexivity.
Qed.


(** *** Running the cell on the store *)

Lemma bind_Ok {A B : Type} (m : M A) (f : A -> M B) (σ σ' : gmap nat dataframe) (b : B) :
  (m ≫= f) σ = Ok (b, σ') ->
  exists a σ1, m σ = Ok (a, σ1) /\ f a σ1 = Ok (b, σ').
Proof.
  unfold mbind, M_bind. destruct (m σ) as [[a σ1]|e]; [eauto | discriminate].
Qed.

Lemma deref_Ok (r : nat) (σ σ' : gmap nat dataframe) (df : dataframe) :
  deref r σ = Ok (df, σ') -> σ' = σ /\ σ !! r = Some df.
Proof.
  unfold deref. destruct (σ !! r); [|discriminate]. by intros [= -> ->].
Qed.

Lemma lift_Ok {A : Type} (m : result A) (σ σ' : gmap nat dataframe) (a : A) :
  lift m σ = Ok (a, σ') -> σ' = σ /\ m = Ok a.
Proof.
  unfold lift. destruct m; [|discriminate]. by intros [= -> ->].
Qed.

Lemma update_Ok (r : nat) (f : dataframe -> result dataframe)
    (σ σ' : gmap nat dataframe) (u : unit) :
  update r f σ = Ok (u, σ') ->
  exists df df', σ !! r = Some df /\ f df = Ok df' /\ σ' = <[r := df']> σ.
Proof.
  unfold update. destruct (σ !! r) as [df|]; [|discriminate].
  destruct (f df) as [df'|] eqn:E; [|discriminate].
  intros [= <-]. eauto.
Qed.

Lemma copy_Ok (r : nat) (σ σ' : gmap nat dataframe) (q : nat) :
  copy r σ = Ok (q, σ') ->
  exists df, σ !! r = Some df /\ σ !! q = None /\ σ' = <[q := df]> σ.
Proof.
  unfold copy. destruct (σ !! r) as [df|]; [|discriminate].
  intros [= <- <-]. exists df. split_and!; [done | | done].
  apply not_elem_of_dom. apply is_fresh.
Qed.

Lemma setitem_Ok (name : string) (values : list cell) (df df' : dataframe) :
  setitem name values df = Ok df' ->
  length values = length (rows df) /\
  rows df' = zip_with (fun r v => <[name := v]> r) (rows df) values /\
  name ∈ columns df' /\
  forall c, c ∈ columns df -> c ∈ columns df'.
Proof.
  unfold setitem. destruct (decide (length values = _)) as [Hlen|]; [|discriminate].
  intros [= <-]. simpl. split_and!; [done..| |].
  - destruct (decide (name ∈ columns df)); [done|].
    apply elem_of_app. right. left.
  - intros c Hc. destruct (decide (name ∈ columns df)); [done|].
    apply elem_of_app. by left.
Qed.

Lemma drop_column_Ok (name : string) (df df' : dataframe) :
  drop_column name df = Ok df' ->
  rows df' = map (delete name) (rows df) /\
  forall c, c ∈ columns df' <-> c ∈ columns df /\ c <> name.
Proof.
  unfold drop_column. destruct (decide (name ∈ columns df)); [|discriminate].
  intros [= <-]. simpl. split; [done|].
  intros c. rewrite list_elem_of_filter. tauto.
Qed.

Lemma astype_int_Int (col out : list cell) :
  astype_int col = Ok out ->
  length out = length col /\ Forall (fun v => exists z, v = Int z) out.
Proof.
  unfold astype_int. revert out.
  induction col as [|v col IH]; simpl; intros out.
  - intros [= <-]. split; [done | constructor].
  - destruct v as [s|z|]; simpl; [| |discriminate].
    + destruct (int_of_str s) as [z|]; simpl; [|discriminate].
      destruct (traverse _ col) as [vs|]; simpl; [|discriminate].
      intros [= <-]. destruct (IH vs eq_refl) as [H1 H2].
      split; [simpl; lia | constructor; eauto].
    + destruct (traverse _ col) as [vs|]; simpl; [|discriminate].
      intros [= <-]. destruct (IH vs eq_refl) as [H1 H2].
      split; [simpl; lia | constructor; eauto].
Qed.

(** The rows after [df[name] = values] hold the new values. *)
Lemma zip_with_insert_Forall (name : string) (P : cell -> Prop)
    (rs : list (gmap string cell)) (values : list cell) :
  Forall P values ->
  Forall (fun r => exists v, r !! name = Some v /\ P v)
         (zip_with (fun r v => <[name := v]> r) rs values).
Proof.
  intros H. revert rs. induction H as [|v values Hv _ IH]; intros [|r rs]; simpl;
    constructor; [|apply IH].
  exists v. by rewrite lookup_insert_eq.
Qed.

Lemma zip_with_insert_other (name other : string) (P : option cell -> Prop)
    (rs : list (gmap string cell)) (values : list cell) :
  other <> name ->
  Forall (fun r => P (r !! other)) rs ->
  Forall (fun r => P (r !! other))
         (zip_with (fun r v => <[name := v]> r) rs values).
Proof.
  intros Hne H. revert values. induction H as [|r rs Hr _ IH]; intros [|v values]; simpl;
    constructor; [|apply IH].
  by rewrite lookup_insert_ne.
Qed.

(** The outcome of the cell: a new object was made, it alone was changed,
    and it holds the year columns in place of [time_range]. *)
Lemma query_result_df_Ok (σ σ' : gmap nat dataframe) (cat_df q : nat) :
  query_result_df cat_df σ = Ok (q, σ') ->
  exists df df',
    σ !! cat_df = Some df /\ σ !! q = None /\
    σ' = <[q := df']> σ /\
    ("time_range" ∉ columns df') /\
    (forall c, c <> "time_range" -> c ∈ columns df -> c ∈ columns df') /\
    "start_year" ∈ columns df' /\ "end_year" ∈ columns df' /\
    length (rows df') = length (rows df) /\
    Forall (fun r => exists s e : Z,
              r !! "start_year" = Some (Int s) /\ r !! "end_year" = Some (Int e))
           (rows df').
Proof.
  unfold query_result_df. intros H.
  apply bind_Ok in H as (q' & σ1 & Hcopy & H).
  apply copy_Ok in Hcopy as (df & Hdf & Hq & ->).
  apply bind_Ok in H as (d & ? & Hd & H).
  apply deref_Ok in Hd as [-> Hd]. rewrite lookup_insert_eq in Hd. injection Hd as <-.
  apply bind_Ok in H as (tr1 & ? & Htr1 & H). apply lift_Ok in Htr1 as [-> Htr1].
  apply bind_Ok in H as (sy & ? & Hsy & H). apply lift_Ok in Hsy as [-> Hsy].
  apply bind_Ok in H as ([] & ? & Hset1 & H).
  apply update_Ok in Hset1 as (d0 & d1 & Hd0 & Hset1 & ->).
  rewrite lookup_insert_eq in Hd0. injection Hd0 as <-.
  apply bind_Ok in H as (d & ? & Hd & H).
  apply deref_Ok in Hd as [-> Hd]. rewrite lookup_insert_eq in Hd. injection Hd as <-.
  apply bind_Ok in H as (tr2 & ? & Htr2 & H). apply lift_Ok in Htr2 as [-> Htr2].
  apply bind_Ok in H as (ey & ? & Hey & H). apply lift_Ok in Hey as [-> Hey].
  apply bind_Ok in H as ([] & ? & Hset2 & H).
  apply update_Ok in Hset2 as (d0 & d2 & Hd0 & Hset2 & ->).
  rewrite lookup_insert_eq in Hd0. injection Hd0 as <-.
  apply bind_Ok in H as ([] & ? & Hdrop & H).
  apply update_Ok in Hdrop as (d0 & d3 & Hd0 & Hdrop & ->).
  rewrite lookup_insert_eq in Hd0. injection Hd0 as <-.
  injection H as <- <-.
  apply setitem_Ok in Hset1 as (Hlen1 & Hrows1 & Hin1 & Hcols1).
  apply setitem_Ok in Hset2 as (Hlen2 & Hrows2 & Hin2 & Hcols2).
  apply drop_column_Ok in Hdrop as (Hrows3 & Hcols3).
  apply astype_int_Int in Hsy as (_ & Hsy).
  apply astype_int_Int in Hey as (_ & Hey).
  exists df, d3. split_and!; try done.
  - by rewrite !insert_insert_eq.
  - rewrite Hcols3. tauto.
  - intros c Hc Hin. apply Hcols3. auto.
  - apply Hcols3. split; [auto | discriminate].
  - apply Hcols3. split; [auto | discriminate].
  - rewrite Hrows1, length_zip_with in Hlen2.
    rewrite Hrows3, length_map, Hrows2, length_zip_with, Hrows1, length_zip_with. lia.
  - rewrite Hrows3, Hrows2, Hrows1.
    apply Forall_fmap.
    pose proof (zip_with_insert_Forall "start_year" _ (rows df) sy Hsy) as F1.
    pose proof (zip_with_insert_other "end_year" "start_year"
                  (fun o => exists z, o = Some (Int z)) _ ey
                  ltac:(discriminate)
                  ltac:(eapply Forall_impl; [exact F1|];
                        intros r (v & -> & z & ->); eauto)) as F2.
    pose proof (zip_with_insert_Forall "end_year" _
                  (zip_with (fun r v => <["start_year" := v]> r) (rows df) sy) ey Hey) as F3.
    pose proof (List.Forall_and F2 F3) as F. simpl in F.
    eapply Forall_impl; [exact F|].
    intros r [(s & Hs) (v & He & e & ->)]. simpl.
    exists s, e. rewrite !lookup_delete_ne by discriminate. done.
Qed.

(** C10: the cell works on a copy: when it has run, the object that
    [cat.df] refers to holds the frame it held before, the variable
    [query_result_df] refers to another object, no object but that one was
    changed, and that one has the columns start_year and end_year and no
    column time_range. *)
Theorem query_result_df_leaves_catalog
    (σ σ' : gmap nat dataframe) (cat_df q : nat) (df : dataframe) :
  σ !! cat_df = Some df ->
  query_result_df cat_df σ = Ok (q, σ') ->
  σ' !! cat_df = Some df /\
  q <> cat_df /\
  (forall r, r <> q -> σ' !! r = σ !! r) /\
  exists df', σ' !! q = Some df' /\
    "start_year" ∈ columns df' /\ "end_year" ∈ columns df' /\
    "time_range" ∉ columns df'.
Proof.
  intros Hdf Hrun.
  apply query_result_df_Ok in Hrun
    as (df0 & df' & Hdf0 & Hq & -> & Hno & _ & Hs & He & _).
  assert (Hne : q <> cat_df) by congruence.
  split_and!.
  - by rewrite lookup_insert_ne.
  - exact Hne.
  - intros r Hr. by rewrite lookup_insert_ne.
  - exists df'. by rewrite lookup_insert_eq.
Qed.

Lemma selected_file_covers_example :
  exists sel,
    selected_file 2021 example_query_result_df = Ok sel /\
    exists r rest, rows sel = r :: rest /\ covers 2021 r /\
      selected_path sel = Ok (default NaN (r !! "zarr_path")).
Proof.
  assert (H : has_years example_query_result_df).
  { unfold has_years, example_query_result_df. simpl. split_and!.
    - right. left.
    - right. right. left.
    - left.
    - repeat constructor.
      + exists 2015%Z, 2019%Z. split; reflexivity.
      + exists 2020%Z, 2024%Z. split; reflexivity. }
  destruct (selected_file_covers example_query_result_df 2021 H)
    as (sel & Hsel & _ & _ & _ & Hsome & _).
  exists sel. split; [exact Hsel|]. apply Hsome.
  exists {[ "zarr_path" := Str "tasmax_2020.zarr";
            "start_year" := Int 2020; "end_year" := Int 2024 ]}.
  split.
  - right. left.
  - exists 2020%Z, 2024%Z. split_and!; [reflexivity | reflexivity | lia | lia].
Defined.

Lemma query_result_df_leaves_catalog_example :
  exists q σ',
    query_result_df 0%nat example_store = Ok (q, σ') /\
    σ' !! 0%nat = Some example_cat_df /\ q <> 0%nat.
Proof.
  destruct (query_result_df 0%nat example_store) as [[q σ']|e] eqn:Hrun.
  - exists q, σ'. split; [reflexivity|].
    destruct (query_result_df_leaves_catalog example_store σ' 0%nat q example_cat_df)
      as (H1 & H2 & _); [reflexivity | exact Hrun | ].
    split; [exact H1 | exact H2].
  - vm_compute in Hrun. discriminate.
Defined.

End CatalogFacts.

(** ** One year of one grid cell *)

Section ExtractionFacts.

Import Extraction.

Lemma lex_leb_total (a b : list Z) : lex_leb a b = false -> lex_leb b a = true.
Proof.
  revert b. induction a as [|x a IH]; intros [|y b]; simpl; try done.
  intros H. apply orb_false_iff in H as [H1 H2].
  apply Z.ltb_ge in H1.
  destruct (Z.ltb_spec y x); [done|]. simpl.
  assert (x = y) as -> by lia.
  rewrite Z.eqb_refl in *. simpl in *. by apply IH.
Qed.

Lemma lex_leb_trans (a b c : list Z) :
  lex_leb a b = true -> lex_leb b c = true -> lex_leb a c = true.
Proof.
  revert b c. induction a as [|x a IH]; intros [|y b] [|z c]; simpl; try done.
  intros H1 H2.
  apply orb_true_iff in H1 as [H1|H1]; apply orb_true_iff in H2 as [H2|H2].
  - apply Z.ltb_lt in H1, H2. apply orb_true_iff. left. apply Z.ltb_lt. lia.
  - apply andb_true_iff in H2 as [H2 _]. apply Z.eqb_eq in H2 as <-.
    by rewrite H1.
  - apply andb_true_iff in H1 as [H1 _]. apply Z.eqb_eq in H1 as ->.
    by rewrite H2.
  - apply andb_true_iff in H1 as [E1 H1]. apply andb_true_iff in H2 as [E2 H2].
    apply Z.eqb_eq in E1 as ->. apply Z.eqb_eq in E2 as ->.
    rewrite Z.eqb_refl, (IH b c H1 H2). simpl. apply orb_true_r.
Qed.

Lemma ts_leb_trans (a b c : timestamp) :
  ts_leb a b = true -> ts_leb b c = true -> ts_leb a c = true.
Proof. apply lex_leb_trans. Qed.

Lemma ts_leb_total (a b : timestamp) : ts_leb a b = false -> ts_leb b a = true.
Proof. apply lex_leb_total. Qed.

(** An increasing index, seen from its first label. *)
Lemma increasing_cons (t : timestamp) (index : list timestamp) :
  increasing (t :: index) ->
  Forall (fun t' => ts_leb t t' = true) index /\ increasing index.
Proof.
  intros H. split.
  - apply Forall_lookup. intros i t' Hi.
    apply (H 0%nat (S i) t t'); [lia | done | done].
  - intros i j a b Hij Ha Hb. apply (H (S i) (S j) a b); [lia | done | done].
Qed.

Section Slice.

Context {X : Type}.

Implicit Types (l : list (timestamp * X)) (lo hi : timestamp).

(** Nothing at or after a label later than [hi] is in the window. *)
Lemma filter_after l lo hi (t : timestamp) :
  ts_leb t hi = false ->
  Forall (fun t' => ts_leb t t' = true) (map fst l) ->
  List.filter (fun s => ts_leb lo (fst s) && ts_leb (fst s) hi) l = [].
Proof.
  intros Ht. induction l as [|s l IH]; simpl; [done|].
  intros H. apply Forall_cons in H as [Hs Hl].
  destruct (ts_leb (fst s) hi) eqn:E.
  - rewrite (ts_leb_trans _ _ _ Hs E) in Ht. discriminate.
  - rewrite andb_false_r. by apply IH.
Qed.

(** Once a label is at or after [lo], the left insertion point is 0. *)
Lemma searchsorted_left_0 (index : list timestamp) lo (t : timestamp) :
  ts_leb lo t = true ->
  Forall (fun t' => ts_leb t t' = true) index ->
  searchsorted false index lo = 0%nat.
Proof.
  intros Ht H. destruct index as [|t' index]; simpl; [done|].
  apply Forall_cons in H as [Ht' _].
  unfold ts_ltb. by rewrite (ts_leb_trans _ _ _ Ht Ht').
Qed.

(** On an increasing index the slice between the two insertion points
    holds the steps of the window, and only them. *)
Lemma slice_filter l lo hi :
  increasing (map fst l) ->
  drop (searchsorted false (map fst l) lo) (take (searchsorted true (map fst l) hi) l) =
  List.filter (fun s => ts_leb lo (fst s) && ts_leb (fst s) hi) l.
Proof.
  induction l as [|s l IH]; simpl; [done|].
  intros Hinc. apply increasing_cons in Hinc as [Hs Hinc].
  specialize (IH Hinc). unfold ts_ltb at 1.
  destruct (ts_leb lo (fst s)) eqn:Elo, (ts_leb (fst s) hi) eqn:Ehi; simpl.
  - rewrite (searchsorted_left_0 _ _ _ Elo Hs) in IH. f_equal. exact IH.
  - symmetry. by apply (filter_after l lo hi (fst s)).
  - exact IH.
  - symmetry. by apply (filter_after l lo hi (fst s)).
Qed.

End Slice.

Lemma py_position_nat (n k : nat) :
  (k < n)%nat -> py_position n (Z.of_nat k) = Ok k.
Proof.
  intros H. unfold py_position.
  destruct (Z.ltb_spec (Z.of_nat k) 0); [lia|].
  destruct (Z.leb_spec 0 (Z.of_nat k)); [|lia].
  destruct (Z.ltb_spec (Z.of_nat k) (Z.of_nat n)); [|lia].
  simpl. by rewrite Nat2Z.id.
Qed.

Lemma traverse_Forall2 {A B : Type} (f : A -> result B) (R : A -> B -> Prop) (xs : list A) :
  Forall (fun x => exists y, f x = Ok y /\ R x y) xs ->
  exists ys, traverse f xs = Ok ys /\ Forall2 R xs ys.
Proof.
  induction 1 as [|x xs (y & Hy & Hxy) _ (ys & Hys & IH)]; simpl.
  - exists []. split; [done | constructor].
  - exists (y :: ys). rewrite Hy. simpl. rewrite Hys. split; [done | by constructor].
Qed.

Lemma Forall_filter_sub {A : Type} (P : A -> Prop) (f : A -> bool) (xs : list A) :
  Forall P xs -> Forall P (List.filter f xs).
Proof.
  induction 1 as [|x xs Hx _ IH]; simpl; [constructor|].
  destruct (f x); [by constructor | done].
Qed.



(** The labels kept for 2015 in the example: both ends of the window are
    included, the days before and after are not. *)
Example annual_series_example_labels :
  map fst <$> annual_series example_tasmax_xr 2015 1 0 =
  Ok [Timestamp 2015 1 1 12 0 0 0; Timestamp 2015 6 15 12 0 0 0;
      Timestamp 2015 12 31 12 0 0 0].
Proof. reflexivity. Qed.

End ExtractionFacts.

(** ** More on counting summer days *)

Section SummerDaysMore.

Import SummerDays.

Lemma count_le_length (series : list Q) (T : Q) :
  (count_summer_days series T <= length series)%nat.
Proof.
  induction series as [|x series IH]; [done|].
  rewrite count_cons. simpl length. destruct (negb (Qle_bool x T)); lia.
Qed.

Lemma count_shift (kelvin : list Q) (offset T : Q) :
  count_summer_days (map (fun k => k - offset) kelvin) T =
  count_summer_days kelvin (T + offset).
Proof.
  induction kelvin as [|k kelvin IH]; [done|].
  simpl map. rewrite !count_cons, IH. f_equal.
  destruct (negb (Qle_bool k (T + offset))) eqn:E.
  - apply gt_true_iff in E.
    assert (E' : T < k - offset) by lra. apply gt_true_iff in E'. by rewrite E'.
  - apply gt_false_iff in E.
    assert (E' : k - offset <= T) by lra. apply gt_false_iff in E'. by rewrite E'.
Qed.

(** X1: the count lies between 0 and the number of samples; it is the
    number of samples exactly when every sample is above the threshold, and
    it is 0 exactly when no sample is. *)
Theorem count_summer_days_bounds (series : list Q) (T : Q) :
  (count_summer_days series T <= length series)%nat /\
  (count_summer_days series T = length series <-> Forall (fun x => T < x) series) /\
  (count_summer_days series T = 0%nat <-> Forall (fun x => x <= T) series).
Proof.
  induction series as [|x series (IH1 & IH2 & IH3)].
  - split_and!; [done | |]; split; constructor.
  - rewrite count_cons. simpl length.
    destruct (negb (Qle_bool x T)) eqn:E.
    + apply gt_true_iff in E. split_and!; [lia | |].
      * rewrite Forall_cons. split; [intros H; split; [done|apply IH2; lia] |].
        intros [_ H]. apply IH2 in H. lia.
      * split; [lia|]. intros H. apply Forall_cons in H as [H _]. lra.
    + apply gt_false_iff in E. split_and!; [lia | |].
      * split; [lia|]. intros H. apply Forall_cons in H as [H _]. lra.
      * rewrite Forall_cons. split; [intros H; split; [done|apply IH3; lia] |].
        intros [_ H]. apply IH3 in H. lia.
Qed.

(** X2: subtracting an offset from every sample and counting above T is
    counting the original samples above T plus the offset; so the count of
    the notebook, taken on the Celsius series at 25, is the count of the
    Kelvin samples above 298.15. *)
Theorem count_summer_days_shift (kelvin : list Q) (offset T : Q) :
  count_summer_days (map (fun k => k - offset) kelvin) T =
  count_summer_days kelvin (T + offset) /\
  no_summer_days_model (map (fun k => k - Extraction.kelvin_offset) kelvin) =
  count_summer_days kelvin 298.15.
Proof.
  split; [apply count_shift|].
  unfold no_summer_days_model. rewrite count_shift. reflexivity.
Qed.

(** X3: the count does not depend on the order of the days. *)
Theorem count_summer_days_permutation (series series' : list Q) (T : Q) :
  series ≡ₚ series' ->
  count_summer_days series T = count_summer_days series' T.
Proof.
  induction 1 as [|x l l' _ IH|x y l|l l' l'' _ IH1 _ IH2].
  - reflexivity.
  - rewrite !count_cons, IH. reflexivity.
  - rewrite !count_cons. lia.
  - congruence.
Qed.

Lemma count_summer_days_permutation_example :
  count_summer_days [30.0; 20.0; 25.1; 25.0] 25 =
  count_summer_days example_series 25.
Proof.
  apply (count_summer_days_permutation [30.0; 20.0; 25.1; 25.0] example_series 25).
  unfold example_series.
  etrans; [apply Permutation_cons_append|]. simpl.
  apply perm_skip. apply perm_swap.
Defined.

End SummerDaysMore.

(** ** More on the nearest grid cell and its rectangle *)

Section NearestCellMore.

Import NearestCell MapRect.

(** X4: with no latitude or no longitude the cell raises [ValueError], the
    minimum of an array of size zero; and whatever the grid and the target,
    the cell raises nothing but [ValueError]. *)
Theorem nearest_cell_faults (lat lon : list Q) (latitude longitude : Q) :
  (lat = [] \/ lon = [] ->
   nearest_cell lat lon latitude longitude = Raise ValueError) /\
  (forall e, nearest_cell lat lon latitude longitude = Raise e -> e = ValueError).
Proof.
  split.
  - intros H. rewrite nearest_cell_unfold. cbv zeta.
    assert (Hc : concat (np_maximum (abs_diff lon longitude) (abs_diff lat latitude)) = []).
    { destruct H as [-> | ->]; [|reflexivity].
      induction lon as [|lo lon IH]; [reflexivity | exact IH]. }
    unfold np_min. rewrite Hc. reflexivity.
  - intros e H. by apply nearest_cell_Raise in H as [-> _].
Qed.

Lemma nearest_cell_faults_example :
  nearest_cell [] [9.0; 10.0] 53.4 10.1 = Raise ValueError.
Proof.
  apply (nearest_cell_faults [] [9.0; 10.0] 53.4 10.1). left. reflexivity.
Defined.

(** Each other row and each other column is farther than the cost of the
    returned cell. *)
Lemma nearest_cell_Ok_axes
    (L M : list Q) (targetLat targetLon : Q) (row col : nat) :
  nearest_cell L M targetLat targetLon = Ok (col, row) ->
  exists la lo,
    L !! row = Some la /\ M !! col = Some lo /\
    (forall i la', L !! i = Some la' -> i <> row ->
       Qmax (Qabs (la - targetLat)) (Qabs (lo - targetLon)) < Qabs (la' - targetLat)) /\
    (forall j lo', M !! j = Some lo' -> j <> col ->
       Qmax (Qabs (la - targetLat)) (Qabs (lo - targetLon)) < Qabs (lo' - targetLon)).
Proof.
  intros H. apply nearest_cell_Ok_iff in H as [(v & Hv & Hleast) Huniq].
  unfold cost in Hv.
  destruct (L !! row) as [la|] eqn:Hla; [|discriminate].
  destruct (M !! col) as [lo|] eqn:Hlo; [|discriminate].
  injection Hv as <-. exists la, lo. split_and!; [done..| |].
  - intros i la' Hi Hne. apply Qnot_le_lt. intros Hle.
    apply Hne. enough ((i, col) = (row, col)) by congruence.
    apply Huniq. exists (Qmax (Qabs (la' - targetLat)) (Qabs (lo - targetLon))).
    unfold cost. rewrite Hi, Hlo. split; [done|].
    intros i' j' w Hw. eapply Qle_trans; [|apply (Hleast i' j' w Hw)].
    apply Q.max_lub; [exact Hle | apply Q.le_max_r].
  - intros j lo' Hj Hne. apply Qnot_le_lt. intros Hle.
    apply Hne. enough ((row, j) = (row, col)) by congruence.
    apply Huniq. exists (Qmax (Qabs (la - targetLat)) (Qabs (lo' - targetLon))).
    unfold cost. rewrite Hla, Hj. split; [done|].
    intros i' j' w Hw. eapply Qle_trans; [|apply (Hleast i' j' w Hw)].
    apply Q.max_lub; [apply Q.le_max_l | exact Hle].
Qed.

(** X5: the returned cell is the nearest on each axis by itself: every
    other latitude of the grid is farther from the target latitude than the
    cost of the returned cell, and so is every other longitude from the
    target longitude. *)
Theorem nearest_cell_nearest_on_each_axis
    (L M : list Q) (targetLat targetLon : Q) (row col : nat) :
  nearest_cell L M targetLat targetLon = Ok (col, row) ->
  exists la lo,
    L !! row = Some la /\ M !! col = Some lo /\
    (forall i la', L !! i = Some la' -> i <> row ->
       Qmax (Qabs (la - targetLat)) (Qabs (lo - targetLon)) < Qabs (la' - targetLat)) /\
    (forall j lo', M !! j = Some lo' -> j <> col ->
       Qmax (Qabs (la - targetLat)) (Qabs (lo - targetLon)) < Qabs (lo' - targetLon)).
Proof. apply nearest_cell_Ok_axes. Qed.

Lemma nearest_cell_nearest_on_each_axis_example :
  exists la lo,
    [52.0; 53.0; 54.0] !! 1%nat = Some la /\ [9.0; 10.0; 11.0] !! 1%nat = Some lo /\
    (forall i la', [52.0; 53.0; 54.0] !! i = Some la' -> i <> 1%nat ->
       Qmax (Qabs (la - 53.4)) (Qabs (lo - 10.1)) < Qabs (la' - 53.4)) /\
    (forall j lo', [9.0; 10.0; 11.0] !! j = Some lo' -> j <> 1%nat ->
       Qmax (Qabs (la - 53.4)) (Qabs (lo - 10.1)) < Qabs (lo' - 10.1)).
Proof.
  apply (nearest_cell_nearest_on_each_axis
           [52.0; 53.0; 54.0] [9.0; 10.0; 11.0] 53.4 10.1 1 1).
  vm_compute. reflexivity.
Defined.












End NearestCellMore.

(** ** More on the catalog cells *)

Section CatalogMore.

Import Catalog.

(** The cell on the store is a copy followed by the three frame operations
    on the new object. *)
Lemma query_result_df_pure (σ : gmap nat dataframe) (cat_df : nat) :
  query_result_df cat_df σ =
  match σ !! cat_df with
  | Some df =>
      match years_frame df with
      | Ok df' => Ok (fresh (dom σ), <[fresh (dom σ) := df']> σ)
      | Raise e => Raise e
      end
  | None => Raise KeyError
  end.
Proof.
  unfold query_result_df, years_frame, mbind, M_bind, copy, mret, M_ret.
  destruct (σ !! cat_df) as [df|]; [|reflexivity].
  set (q := fresh (dom σ)).
  unfold deref at 1. rewrite lookup_insert_eq.
  destruct (getitem "time_range" df) as [tr1|]; simpl; [|reflexivity].
  destruct (astype_int (map (str_slice 0 4) tr1)) as [sy|]; simpl; [|reflexivity].
  unfold update at 1. rewrite lookup_insert_eq.
  destruct (setitem "start_year" sy df) as [d1|]; simpl; [|reflexivity].
  unfold deref. rewrite lookup_insert_eq.
  destruct (getitem "time_range" d1) as [tr2|]; simpl; [|reflexivity].
  destruct (astype_int (map (str_slice 9 13) tr2)) as [ey|]; simpl; [|reflexivity].
  unfold update at 1. rewrite lookup_insert_eq.
  destruct (setitem "end_year" ey d1) as [d2|]; simpl; [|reflexivity].
  unfold update. rewrite lookup_insert_eq.
  destruct (drop_column "time_range" d2) as [d3|]; simpl; [|reflexivity].
  by rewrite !insert_insert_eq.
Qed.

(** Reading the years of a column of [time_range] cells. *)
Lemma astype_int_slice_Ok (start len : nat) (rs : list (gmap string cell))
    (out : list cell) :
  astype_int (map (str_slice start (start + len))
                  (map (fun r => default NaN (r !! "time_range")) rs)) = Ok out ->
  Forall2 (fun r v => exists t z,
             r !! "time_range" = Some (Str t) /\
             int_of_str (String.substring start len t) = Ok z /\ v = Int z) rs out.
Proof.
  unfold astype_int. revert out.
  induction rs as [|r rs IH]; simpl; intros out.
  - intros [= <-]. constructor.
  - destruct (r !! "time_range") as [[t|z|]|] eqn:Ht; simpl; try discriminate.
    replace (start + len - start)%nat with len by lia.
    destruct (int_of_str (String.substring start len t)) as [z|] eqn:Hz;
      simpl; [|discriminate].
    destruct (traverse _ _) as [vs|]; simpl; [|discriminate].
    intros [= <-]. constructor; [by eauto | by apply IH].
Qed.




(** Assigning a column leaves the cells of the other columns as they were. *)
Lemma zip_with_insert_column (name other : string)
    (rs : list (gmap string cell)) (values : list cell) :
  other <> name -> length values = length rs ->
  map (fun r => default NaN (r !! other))
      (zip_with (fun r v => <[name := v]> r) rs values) =
  map (fun r => default NaN (r !! other)) rs.
Proof.
  intros Hne. revert values.
  induction rs as [|r rs IH]; intros [|v values]; simpl; try done.
  intros [= Hlen]. rewrite lookup_insert_ne by done. f_equal. by apply IH.
Qed.

Lemma elem_of_columns_with (name c : string) (cols : list string) :
  c ∈ columns_with name cols <-> c ∈ cols \/ c = name.
Proof.
  unfold columns_with. destruct (decide (name ∈ cols)) as [Hin|Hnin].
  - split; [by left | intros [?| ->]; done].
  - rewrite elem_of_app, list_elem_of_singleton. done.
Qed.

Lemma getitem_in (name : string) (df : dataframe) :
  name ∈ columns df ->
  getitem name df = Ok (map (fun r => default NaN (r !! name)) (rows df)).
Proof. intros H. unfold getitem. by rewrite decide_True. Qed.

Lemma getitem_not_in (name : string) (df : dataframe) :
  name ∉ columns df -> getitem name df = Raise KeyError.
Proof. intros H. unfold getitem. by rewrite decide_False. Qed.

Lemma setitem_length (name : string) (values : list cell) (df : dataframe) :
  length values = length (rows df) ->
  setitem name values df =
  Ok {| columns := columns_with name (columns df);
        rows := zip_with (fun r v => <[name := v]> r) (rows df) values |}.
Proof. intros H. unfold setitem. by rewrite decide_True. Qed.

Lemma drop_column_in (name : string) (df : dataframe) :
  name ∈ columns df ->
  drop_column name df =
  Ok {| columns := filter (fun c => c <> name) (columns df);
        rows := map (delete name) (rows df) |}.
Proof. intros H. unfold drop_column. by rewrite decide_True. Qed.

(** The three frame operations, once the two year columns are read. *)
Lemma years_frame_steps (df : dataframe) (sy ey : list cell) :
  "time_range" ∈ columns df ->
  astype_int (map (str_slice 0 4)
                  (map (fun r => default NaN (r !! "time_range")) (rows df))) = Ok sy ->
  astype_int (map (str_slice 9 13)
                  (map (fun r => default NaN (r !! "time_range")) (rows df))) = Ok ey ->
  years_frame df =
  Ok {| columns := filter (fun c => c <> "time_range")
                     (columns_with "end_year" (columns_with "start_year" (columns df)));
        rows := map (delete "time_range")
                  (zip_with (fun r v => <["end_year" := v]> r)
                     (zip_with (fun r v => <["start_year" := v]> r) (rows df) sy) ey) |}.
Proof.
  intros Hin Hsy Hey.
  pose proof (Forall2_length _ _ _ (astype_int_slice_Ok 0 4 _ _ Hsy)) as Hlen1.
  pose proof (Forall2_length _ _ _ (astype_int_slice_Ok 9 4 _ _ Hey)) as Hlen2.
  unfold years_frame. rewrite (getitem_in _ _ Hin). simpl. rewrite Hsy. simpl.
  rewrite setitem_length by done. simpl.
  rewrite getitem_in by (simpl; apply elem_of_columns_with; by left). simpl.
  rewrite zip_with_insert_column by done. rewrite Hey. simpl.
  rewrite setitem_length by (simpl; rewrite length_zip_with; lia). simpl.
  rewrite drop_column_in by (simpl; rewrite !elem_of_columns_with; by left; left).
  reflexivity.
Qed.

(** What the three frame operations make of a frame. *)
Lemma years_frame_Ok (df df' : dataframe) :
  years_frame df = Ok df' ->
  "time_range" ∈ columns df /\
  columns df' =
    filter (fun c => c <> "time_range")
           (columns_with "end_year" (columns_with "start_year" (columns df))) /\
  Forall2 (fun r r' => exists s e,
             time_range_years r s e /\ r' = with_years r s e)
          (rows df) (rows df').
Proof.
  intros H.
  destruct (decide ("time_range" ∈ columns df)) as [Hin|Hnin]; cycle 1.
  { unfold years_frame in H. rewrite getitem_not_in in H by done. discriminate. }
  destruct (astype_int (map (str_slice 0 4)
              (map (fun r => default NaN (r !! "time_range")) (rows df))))
    as [sy|] eqn:Hsy; cycle 1.
  { unfold years_frame in H. rewrite getitem_in in H by done. simpl in H.
    rewrite Hsy in H. discriminate. }
  destruct (astype_int (map (str_slice 9 13)
              (map (fun r => default NaN (r !! "time_range")) (rows df))))
    as [ey|] eqn:Hey; cycle 1.
  { pose proof (Forall2_length _ _ _ (astype_int_slice_Ok 0 4 _ _ Hsy)) as Hlen1.
    unfold years_frame in H. rewrite getitem_in in H by done. simpl in H.
    rewrite Hsy in H. simpl in H. rewrite setitem_length in H by done. simpl in H.
    rewrite getitem_in in H by (simpl; apply elem_of_columns_with; by left).
    simpl in H. rewrite zip_with_insert_column in H by done.
    rewrite Hey in H. discriminate. }
  rewrite (years_frame_steps df sy ey Hin Hsy Hey) in H. injection H as <-.
  simpl. split_and!; [done..|].
  apply (astype_int_slice_Ok 0 4) in Hsy. apply (astype_int_slice_Ok 9 4) in Hey.
  revert ey Hey.
  induction Hsy as [|r v rs sy (t & s & Ht & Hs & ->) _ IH]; intros ey Hey.
  - inversion Hey. constructor.
  - inversion Hey as [|? v' ? ey' (t' & e & Ht' & He & ->) Hey']; subst. simpl.
    constructor; [|by apply IH].
    exists s, e. split; [|reflexivity].
    exists t. assert (t' = t) as -> by congruence. done.
Qed.







(** The rows of the new frame, one by one. *)
Lemma with_years_lookup (r : gmap string cell) (s e : Z) :
  with_years r s e !! "start_year" = Some (Int s) /\
  with_years r s e !! "end_year" = Some (Int e) /\
  with_years r s e !! "time_range" = None /\
  forall c, c <> "time_range" -> c <> "start_year" -> c <> "end_year" ->
    with_years r s e !! c = r !! c.
Proof.
  unfold with_years. split_and!.
  - rewrite lookup_delete_ne, lookup_insert_ne, lookup_insert_eq by discriminate. done.
  - rewrite lookup_delete_ne, lookup_insert_eq by discriminate. done.
  - apply lookup_delete_eq.
  - intros c H1 H2 H3. by rewrite lookup_delete_ne, !lookup_insert_ne.
Qed.





(** *** The selection, computed *)

Lemma selected_file_Ok (df : dataframe) (Y : Z) :
  has_years df ->
  selected_file Y df = Ok (mask_rows df (map (row_mask Y) (rows df))).
Proof.
  intros (Hstart & Hend & _ & Hrows).
  destruct (masks_of_rows Y _ Hrows) as (a & b & Ha & Hb & Hab).
  unfold selected_file. rewrite (getitem_in _ _ Hstart). simpl. rewrite Ha. simpl.
  rewrite (getitem_in _ _ Hend). simpl. rewrite Hb. simpl. by rewrite Hab.
Qed.

Lemma selected_path_rows (sel : dataframe) :
  "zarr_path" ∈ columns sel ->
  selected_path sel =
  match rows sel with
  | [] => Raise IndexError
  | r :: _ => Ok (default NaN (r !! "zarr_path"))
  end.
Proof.
  intros H. unfold selected_path. rewrite (getitem_in _ _ H). simpl.
  destruct (rows sel); reflexivity.
Qed.

(** The first row kept by a mask computed row by row is the first row that
    passes the test. *)
Lemma bool_index_map_head {A : Type} (f : A -> bool) (xs : list A) (x : A) (rest : list A) :
  SummerDays.bool_index xs (map f xs) = x :: rest ->
  exists i, xs !! i = Some x /\ f x = true /\
    forall j y, (j < i)%nat -> xs !! j = Some y -> f y = false.
Proof.
  induction xs as [|a xs IH]; simpl; [discriminate|].
  destruct (f a) eqn:Ha.
  - intros [= -> _]. exists 0%nat. split_and!; [done | done | lia].
  - intros H. destruct (IH H) as (i & Hi & Hx & Hlt).
    exists (S i). split_and!; [done | done |].
    intros [|j] y Hj; simpl; [by intros [= <-] | apply Hlt; lia].
Qed.

Lemma bool_index_map_all {A : Type} (f : A -> bool) (xs : list A) :
  (forall x, x ∈ xs -> f x = true) -> SummerDays.bool_index xs (map f xs) = xs.
Proof.
  induction xs as [|a xs IH]; simpl; [done|].
  intros H. rewrite (H a) by left. f_equal. apply IH. intros x Hx. apply H. by right.
Qed.

(** After the cell, the new frame has what the selection reads. *)
Lemma years_frame_has_years (df df' : dataframe) :
  years_frame df = Ok df' -> "zarr_path" ∈ columns df -> has_years df'.
Proof.
  intros Hrun Hpath. apply years_frame_Ok in Hrun as (_ & Hcols & Hrows).
  assert (Hin : forall c, c ∈ columns df' <->
                  c <> "time_range" /\ ((c ∈ columns df \/ c = "start_year") \/ c = "end_year")).
  { intros c. rewrite Hcols, list_elem_of_filter, !elem_of_columns_with. tauto. }
  split_and!.
  - apply Hin. split; [discriminate | tauto].
  - apply Hin. split; [discriminate | tauto].
  - apply Hin. split; [discriminate | tauto].
  - clear -Hrows. induction Hrows as [|r r' rs rs' (s & e & _ & ->) _ IH];
      constructor; [|exact IH].
    destruct (with_years_lookup r s e) as (H1 & H2 & _). eauto.
Qed.

Lemma time_range_years_unique (r : gmap string cell) (s e s' e' : Z) :
  time_range_years r s e -> time_range_years r s' e' -> s = s' /\ e = e'.
Proof.
  intros (t & Ht & Hs & He) (t' & Ht' & Hs' & He').
  assert (t' = t) as -> by congruence. split; congruence.
Qed.

Lemma covers_with_years (Y : Z) (r : gmap string cell) (s e : Z) :
  covers Y (with_years r s e) <-> (s <= Y <= e)%Z.
Proof.
  destruct (with_years_lookup r s e) as (H1 & H2 & _). unfold covers. split.
  - intros (s' & e' & Hs & He & H). rewrite H1 in Hs. rewrite H2 in He.
    injection Hs as <-. injection He as <-. exact H.
  - intros H. exists s, e. done.
Qed.

(** X10: from the catalog to the path.  When [cat.df] has a column
    zarr_path and the cell that builds [query_result_df] has run, the
    selection for any year succeeds.  A path it yields is the zarr_path of
    the first row of [cat.df], in catalog order, whose time_range years
    contain the year; and the only fault of taking the path is
    [IndexError], raised when no row's years contain the year. *)
Theorem selected_path_of_catalog
    (σ σ' : gmap nat dataframe) (cat_df q : nat) (df : dataframe) (Y : Z) :
  σ !! cat_df = Some df ->
  "zarr_path" ∈ columns df ->
  query_result_df cat_df σ = Ok (q, σ') ->
  exists df' sel,
    σ' !! q = Some df' /\
    selected_file Y df' = Ok sel /\
    (forall p, selected_path sel = Ok p ->
       exists i r s e,
         rows df !! i = Some r /\ time_range_years r s e /\ (s <= Y <= e)%Z /\
         p = default NaN (r !! "zarr_path") /\
         forall j r2 s2 e2, (j < i)%nat -> rows df !! j = Some r2 ->
           time_range_years r2 s2 e2 -> ~ (s2 <= Y <= e2)%Z) /\
    (forall x, selected_path sel = Raise x ->
       x = IndexError /\
       forall r s e, r ∈ rows df -> time_range_years r s e -> ~ (s <= Y <= e)%Z).
Proof.
  intros Hdf Hpath. rewrite query_result_df_pure, Hdf.
  destruct (years_frame df) as [df'|] eqn:Hrun; [|discriminate].
  intros [= <- <-].
  pose proof (years_frame_has_years _ _ Hrun Hpath) as Hyears.
  apply years_frame_Ok in Hrun as (_ & _ & Hrows).
  exists df', (mask_rows df' (map (row_mask Y) (rows df'))).
  rewrite lookup_insert_eq, (selected_file_Ok _ _ Hyears).
  rewrite selected_path_rows by (simpl; apply Hyears).
  split_and!; [done | done | |]; simpl.
  - intros p.
    destruct (SummerDays.bool_index _ _) as [|r' rest] eqn:E; [discriminate|].
    intros [= <-].
    apply bool_index_map_head in E as (i & Hi & Hr' & Hbefore).
    destruct (Forall2_lookup_r _ _ _ _ _ Hrows Hi) as (r & Hr & s & e & Hse & ->).
    exists i, r, s, e.
    apply row_mask_covers, covers_with_years in Hr'.
    destruct (with_years_lookup r s e) as (_ & _ & _ & Hother).
    split_and!; [done | done | lia | lia | by rewrite Hother by discriminate |].
    intros j r2 s2 e2 Hj Hr2 Hse2 Hcov.
    destruct (Forall2_lookup_l _ _ _ _ _ Hrows Hr2) as (r2' & Hr2' & s3 & e3 & Hse3 & ->).
    destruct (time_range_years_unique _ _ _ _ _ Hse2 Hse3) as [-> ->].
    specialize (Hbefore j _ Hj Hr2').
    apply (proj2 (covers_with_years Y r2 s3 e3)), (proj2 (row_mask_covers _ _)) in Hcov.
    congruence.
  - intros x.
    destruct (SummerDays.bool_index _ _) as [|r' rest] eqn:E; [|discriminate].
    intros [= <-]. split; [done|].
    intros r s e Hr Hse Hcov.
    apply list_elem_of_lookup in Hr as [i Hi].
    destruct (Forall2_lookup_l _ _ _ _ _ Hrows Hi) as (r' & Hr' & s3 & e3 & Hse3 & ->).
    destruct (time_range_years_unique _ _ _ _ _ Hse Hse3) as [-> ->].
    assert (Hin : with_years r s3 e3 ∈ SummerDays.bool_index (rows df') (map (row_mask Y) (rows df'))).
    { apply bool_index_map. split; [by eapply list_elem_of_lookup_2|].
      by apply row_mask_covers, covers_with_years. }
    rewrite E in Hin. inversion Hin.
Qed.

Lemma selected_path_of_catalog_example :
  exists q σ' df' sel,
    query_result_df 0%nat example_store = Ok (q, σ') /\
    σ' !! q = Some df' /\ selected_file 2021 df' = Ok sel.
Proof.
  destruct (query_result_df 0%nat example_store) as [[q σ']|e] eqn:Hrun.
  - destruct (selected_path_of_catalog example_store σ' 0%nat q example_cat_df 2021)
      as (df' & sel & Hq & Hsel & _); [reflexivity | right; left | exact Hrun |].
    exists q, σ', df', sel. split_and!; [reflexivity | exact Hq | exact Hsel].
  - vm_compute in Hrun. discriminate.
Defined.

Lemma bool_index_map_at_most_one {A : Type} (f : A -> bool) (xs : list A) :
  (forall i j x y, (i < j)%nat -> xs !! i = Some x -> xs !! j = Some y ->
     f x = true -> f y = true -> False) ->
  (length (SummerDays.bool_index xs (map f xs)) <= 1)%nat.
Proof.
  induction xs as [|a xs IH]; simpl; [lia|].
  intros H. destruct (f a) eqn:Ha.
  - rewrite bool_index_map_nil; [simpl; lia|].
    intros y Hy. apply list_elem_of_lookup in Hy as [j Hj].
    destruct (f y) eqn:Hfy; [|done].
    exfalso. apply (H 0%nat (S j) a y); [lia | done | done | done | done].
  - apply IH. intros i j x y Hij Hx Hy. apply (H (S i) (S j) x y); [lia | done | done].
Qed.

(** X11: when the intervals of the records do not overlap, the selection
    for any year holds at most one record. *)
Theorem selected_file_at_most_one (query_result_df : dataframe) (Y : Z) :
  has_years query_result_df ->
  (forall i j r1 r2 s1 e1 s2 e2, (i < j)%nat ->
     rows query_result_df !! i = Some r1 -> rows query_result_df !! j = Some r2 ->
     r1 !! "start_year" = Some (Int s1) -> r1 !! "end_year" = Some (Int e1) ->
     r2 !! "start_year" = Some (Int s2) -> r2 !! "end_year" = Some (Int e2) ->
     (e1 < s2 \/ e2 < s1)%Z) ->
  exists sel,
    selected_file Y query_result_df = Ok sel /\ (length (rows sel) <= 1)%nat.
Proof.
  intros Hyears Hdisjoint. rewrite (selected_file_Ok _ _ Hyears).
  eexists. split; [reflexivity|]. simpl.
  apply bool_index_map_at_most_one.
  intros i j r1 r2 Hij Hr1 Hr2 H1 H2.
  apply row_mask_covers in H1 as (s1 & e1 & Hs1 & He1 & Hc1).
  apply row_mask_covers in H2 as (s2 & e2 & Hs2 & He2 & Hc2).
  destruct (Hdisjoint i j r1 r2 s1 e1 s2 e2 Hij Hr1 Hr2 Hs1 He1 Hs2 He2); lia.
Qed.

Lemma has_years_example : has_years example_query_result_df.
Proof.
  unfold has_years, example_query_result_df. simpl. split_and!.
  - right. left.
  - right. right. left.
  - left.
  - repeat constructor.
    + exists 2015%Z, 2019%Z. split; reflexivity.
    + exists 2020%Z, 2024%Z. split; reflexivity.
Defined.

Lemma selected_file_at_most_one_example :
  exists sel,
    selected_file 2017 example_query_result_df = Ok sel /\ (length (rows sel) <= 1)%nat.
Proof.
  apply (selected_file_at_most_one example_query_result_df 2017 has_years_example).
  intros [|[|i]] [|[|j]] r1 r2 s1 e1 s2 e2 Hij; simpl;
    intros [= <-] [= <-]; try lia.
  intros Hs1 He1 Hs2 He2. vm_compute in Hs1, He1, Hs2, He2.
  injection Hs1 as <-. injection He1 as <-. injection Hs2 as <-. injection He2 as <-.
  left. lia.
Defined.

(** X12: selecting again from the selection changes nothing. *)
Theorem selected_file_idempotent (query_result_df sel : dataframe) (Y : Z) :
  has_years query_result_df ->
  selected_file Y query_result_df = Ok sel ->
  selected_file Y sel = Ok sel.
Proof.
  intros Hyears. rewrite (selected_file_Ok _ _ Hyears). intros [= <-].
  set (kept := SummerDays.bool_index (rows query_result_df)
                 (map (row_mask Y) (rows query_result_df))).
  assert (Hkept : forall r, r ∈ kept -> r ∈ rows query_result_df /\ row_mask Y r = true)
    by (intros r; apply bool_index_map).
  rewrite selected_file_Ok.
  - unfold mask_rows. simpl. fold kept. rewrite bool_index_map_all; [done|].
    intros r Hr. by apply Hkept.
  - destruct Hyears as (H1 & H2 & H3 & H4). split_and!; [done..|].
    simpl. fold kept. rewrite Forall_forall in H4. apply Forall_forall.
    intros r Hr. apply H4. by apply Hkept.
Qed.

Lemma selected_file_idempotent_example :
  exists sel,
    selected_file 2021 example_query_result_df = Ok sel /\
    selected_file 2021 sel = Ok sel.
Proof.
  destruct (selected_file 2021 example_query_result_df) as [sel|e] eqn:Hsel.
  - exists sel. split; [reflexivity|].
    apply (selected_file_idempotent example_query_result_df sel 2021 has_years_example Hsel).
  - vm_compute in Hsel. discriminate.
Defined.

End CatalogMore.

(** ** More on the slice of the year and the series of the cell *)

Section ExtractionMore.

Import Extraction.


Lemma in_window_year (Y : Z) (t : timestamp) :
  in_window Y t = true -> year t = Y.
Proof.
  unfold in_window, ts_leb, time_start, time_end. destruct t as [y m d h mi s ns].
  simpl. intros H. apply andb_true_iff in H as [H1 H2].
  apply orb_true_iff in H1 as [H1|H1]; apply orb_true_iff in H2 as [H2|H2].
  - apply Z.ltb_lt in H1, H2. lia.
  - apply andb_true_iff in H2 as [H2 _]. by apply Z.eqb_eq in H2.
  - apply andb_true_iff in H1 as [H1 _]. by apply Z.eqb_eq in H1.
  - apply andb_true_iff in H2 as [H2 _]. by apply Z.eqb_eq in H2.
Qed.




Lemma increasing_cons_intro (t : timestamp) (index : list timestamp) :
  Forall (fun t' => ts_leb t t' = true) index -> increasing index ->
  increasing (t :: index).
Proof.
  intros Hhead Hinc [|i] [|j] a b Hij; simpl; try lia.
  - intros [= <-] Hb. rewrite Forall_lookup in Hhead. by eapply Hhead.
  - apply Hinc. lia.
Qed.

Lemma increasing_filter {X : Type} (f : timestamp * X -> bool) (l : list (timestamp * X)) :
  increasing (map fst l) -> increasing (map fst (List.filter f l)).
Proof.
  induction l as [|s l IH]; simpl; [done|].
  intros H. apply increasing_cons in H as [Hhead Hinc].
  destruct (f s); [|by apply IH]. simpl.
  apply increasing_cons_intro; [|by apply IH].
  clear -Hhead. induction l as [|s' l IH]; simpl; [constructor|].
  simpl in Hhead. apply Forall_cons in Hhead as [H1 H2].
  destruct (f s'); [constructor|]; auto.
Qed.

Lemma filter_filter {A : Type} (f : A -> bool) (l : list A) :
  List.filter f (List.filter f l) = List.filter f l.
Proof.
  induction l as [|a l IH]; simpl; [done|].
  destruct (f a) eqn:E; [|done]. simpl. by rewrite E, IH.
Qed.

Lemma filter_none {A : Type} (f : A -> bool) (l : list A) :
  Forall (fun a => f a = false) l -> List.filter f l = [].
Proof.
  induction 1 as [|a l Ha _ IH]; simpl; [done|]. by rewrite Ha.
Qed.

Lemma Forall_filter {A : Type} (f : A -> bool) (l : list A) :
  Forall (fun a => f a = true) (List.filter f l).
Proof.
  induction l as [|a l IH]; simpl; [constructor|].
  destruct (f a) eqn:E; [by constructor | done].
Qed.

(** The steps of the slice, on an increasing index. *)
Lemma tasmax_year_xr_steps (tasmax_xr : dataarray) (Y : Z) :
  increasing (time tasmax_xr) ->
  steps (tasmax_year_xr tasmax_xr Y) =
  List.filter (fun step => in_window Y (fst step)) (steps tasmax_xr).
Proof.
  intros H. unfold tasmax_year_xr, loc_slice, time. simpl.
  by rewrite (slice_filter (steps tasmax_xr) _ _ H).
Qed.

(** X14: on an increasing time index, the slice of a year keeps the
    coordinates of the grid, an increasing index and the shape of the
    steps; its steps are steps of the array, in their order, all within the
    window; slicing it again for the same year changes nothing, and slicing
    it for another year leaves no step. *)
Theorem tasmax_year_xr_invariants (tasmax_xr : dataarray) (Y : Z) :
  increasing (time tasmax_xr) ->
  lat (tasmax_year_xr tasmax_xr Y) = lat tasmax_xr /\
  lon (tasmax_year_xr tasmax_xr Y) = lon tasmax_xr /\
  increasing (time (tasmax_year_xr tasmax_xr Y)) /\
  (well_shaped tasmax_xr -> well_shaped (tasmax_year_xr tasmax_xr Y)) /\
  sublist (steps (tasmax_year_xr tasmax_xr Y)) (steps tasmax_xr) /\
  Forall (fun step => in_window Y (fst step) = true) (steps (tasmax_year_xr tasmax_xr Y)) /\
  tasmax_year_xr (tasmax_year_xr tasmax_xr Y) Y = tasmax_year_xr tasmax_xr Y /\
  (forall Y', Y' <> Y -> steps (tasmax_year_xr (tasmax_year_xr tasmax_xr Y) Y') = []).
Proof.
  intros Hinc.
  pose proof (tasmax_year_xr_steps tasmax_xr Y Hinc) as Hsteps.
  assert (Hinc' : increasing (time (tasmax_year_xr tasmax_xr Y))).
  { unfold time. rewrite Hsteps. by apply increasing_filter. }
  assert (Hwin : Forall (fun step => in_window Y (fst step) = true)
                   (steps (tasmax_year_xr tasmax_xr Y))).
  { rewrite Hsteps. apply (Forall_filter (fun step => in_window Y (fst step))). }
  split_and!; try done.
  - unfold well_shaped. rewrite Hsteps. simpl. apply Forall_filter_sub.
  - unfold tasmax_year_xr, loc_slice. simpl.
    etrans; [apply sublist_drop | apply sublist_take].
  - pose proof (tasmax_year_xr_steps _ Y Hinc') as Hagain.
    rewrite Hsteps, filter_filter, <- Hsteps in Hagain.
    destruct (tasmax_year_xr (tasmax_year_xr tasmax_xr Y) Y) as [la lo st] eqn:E.
    assert (la = lat tasmax_xr) as -> by (by apply (f_equal lat) in E).
    assert (lo = lon tasmax_xr) as -> by (by apply (f_equal lon) in E).
    simpl in Hagain. subst st. reflexivity.
  - intros Y' Hne. rewrite (tasmax_year_xr_steps _ Y' Hinc').
    apply filter_none. eapply Forall_impl; [exact Hwin|].
    intros step Hstep. simpl in Hstep. apply in_window_year in Hstep.
    destruct (in_window Y' (fst step)) eqn:E; [|done].
    apply in_window_year in E. congruence.
Qed.

Lemma increasing_example : increasing (time example_tasmax_xr).
Proof.
  intros [|[|[|[|[|i]]]]] [|[|[|[|[|j]]]]] a b Hij; simpl;
    intros [= <-] [= <-]; try reflexivity; lia.
Defined.

Lemma well_shaped_example : well_shaped example_tasmax_xr.
Proof. repeat constructor. Defined.

Lemma tasmax_year_xr_invariants_example :
  tasmax_year_xr (tasmax_year_xr example_tasmax_xr 2015) 2015 =
  tasmax_year_xr example_tasmax_xr 2015.
Proof.
  apply (tasmax_year_xr_invariants example_tasmax_xr 2015 increasing_example).
Defined.

Lemma py_position_Ok (n : nat) (i : Z) (k : nat) :
  py_position n i = Ok k ->
  (- Z.of_nat n <= i < Z.of_nat n)%Z /\ (k < n)%nat.
Proof.
  unfold py_position. destruct (Z.ltb_spec i 0).
  - destruct (Z.leb_spec 0 (i + Z.of_nat n));
      destruct (Z.ltb_spec (i + Z.of_nat n) (Z.of_nat n));
      simpl; try discriminate.
    intros [= <-]. lia.
  - destruct (Z.leb_spec 0 i); destruct (Z.ltb_spec i (Z.of_nat n));
      simpl; try discriminate.
    intros [= <-]. lia.
Qed.

Lemma py_position_range (n : nat) (i : Z) :
  (- Z.of_nat n <= i < Z.of_nat n)%Z -> exists k, py_position n i = Ok k /\ (k < n)%nat.
Proof.
  intros H. unfold py_position.
  destruct (Z.ltb_spec i 0).
  - destruct (Z.leb_spec 0 (i + Z.of_nat n)); [|lia].
    destruct (Z.ltb_spec (i + Z.of_nat n) (Z.of_nat n)); [|lia].
    simpl. eexists. split; [reflexivity | lia].
  - destruct (Z.leb_spec 0 i); [|lia].
    destruct (Z.ltb_spec i (Z.of_nat n)); [|lia].
    simpl. eexists. split; [reflexivity | lia].
Qed.

Lemma py_position_Raise (n : nat) (i : Z) (e : exn) :
  py_position n i = Raise e -> e = IndexError.
Proof. unfold py_position. destruct (_ && _); congruence. Qed.

(** Reading one cell of every step of a well-shaped array. *)
Lemma traverse_cells (sts : list (timestamp * list (list Q))) (n k y x : nat) :
  Forall (fun step : timestamp * list (list Q) =>
            length (snd step) = n /\ Forall (fun row => length row = k) (snd step)) sts ->
  (y < n)%nat -> (x < k)%nat ->
  exists cells,
    traverse (fun step : timestamp * list (list Q) =>
                match snd step !! y ≫= (.!! x) with
                | Some v => Ok (fst step, v)
                | None => Raise IndexError
                end) sts = Ok cells /\
    Forall2 (fun step cell => fst cell = fst step /\
               exists values, snd step !! y = Some values /\
                 values !! x = Some (snd cell)) sts cells.
Proof.
  intros Hshape Hy Hx. apply traverse_Forall2.
  eapply Forall_impl; [exact Hshape|].
  intros [t grid] [Hlen Hrows]. simpl in *.
  destruct (lookup_lt_is_Some_2 grid y) as [values Hvalues]; [lia|].
  rewrite Forall_lookup in Hrows. specialize (Hrows _ _ Hvalues).
  destruct (lookup_lt_is_Some_2 values x) as [v Hv]; [lia|].
  exists (t, v). rewrite Hvalues. simpl. rewrite Hv. eauto.
Qed.

(** X15: on a well-shaped array, the series of a cell is obtained exactly
    when both indices are within the shape of the grid, counting from the
    end when negative; otherwise the fault is [IndexError], also when the
    array holds no time step.  The series has one sample for each time
    step, with the label of the step. *)
Theorem tasmax_year_place_xr_bounds (tasmax_year_xr : dataarray) (yloc xloc : Z) :
  well_shaped tasmax_year_xr ->
  ((exists series, tasmax_year_place_xr tasmax_year_xr yloc xloc = Ok series) <->
   (- Z.of_nat (length (lat tasmax_year_xr)) <= yloc
      < Z.of_nat (length (lat tasmax_year_xr)))%Z /\
   (- Z.of_nat (length (lon tasmax_year_xr)) <= xloc
      < Z.of_nat (length (lon tasmax_year_xr)))%Z) /\
  (forall e, tasmax_year_place_xr tasmax_year_xr yloc xloc = Raise e -> e = IndexError) /\
  (forall series, tasmax_year_place_xr tasmax_year_xr yloc xloc = Ok series ->
     map fst series = time tasmax_year_xr).
Proof.
  intros Hshape. unfold tasmax_year_place_xr, isel.
  destruct (py_position (length (lat tasmax_year_xr)) yloc) as [y|e1] eqn:Hy; simpl.
  - destruct (py_position (length (lon tasmax_year_xr)) xloc) as [x|e2] eqn:Hx; simpl.
    + apply py_position_Ok in Hy as [Hy Hy']. apply py_position_Ok in Hx as [Hx Hx'].
      destruct (traverse_cells _ _ _ y x Hshape Hy' Hx') as (cells & -> & Hcells).
      simpl. split_and!; [split; eauto | discriminate |].
      intros series [= <-]. rewrite map_map. simpl. unfold time.
      clear -Hcells. induction Hcells as [|step cell sts cells [H _] _ IH]; simpl;
        [done | by rewrite H, IH].
    + split_and!; [|intros e [= <-]; by apply py_position_Raise in Hx | discriminate].
      split; [intros [? ?]; discriminate|].
      intros [_ Hr]. destruct (py_position_range _ _ Hr) as (k & Hk & _). congruence.
  - split_and!; [|intros e [= <-]; by apply py_position_Raise in Hy | discriminate].
    split; [intros [? ?]; discriminate|].
    intros [Hr _]. destruct (py_position_range _ _ Hr) as (k & Hk & _). congruence.
Qed.

Lemma tasmax_year_place_xr_bounds_example :
  tasmax_year_place_xr example_tasmax_xr 2 0 = Raise IndexError.
Proof.
  destruct (tasmax_year_place_xr example_tasmax_xr 2 0) as [series|e] eqn:E.
  - vm_compute in E. discriminate.
  - f_equal.
    apply (proj1 (proj2 (tasmax_year_place_xr_bounds example_tasmax_xr 2 0
                           well_shaped_example)) e E).
Defined.

Lemma filter_length_le {A : Type} (f : A -> bool) (l : list A) :
  (length (List.filter f l) <= length l)%nat.
Proof.
  induction l as [|a l IH]; simpl; [done|]. destruct (f a); simpl; lia.
Qed.

(** X16: from the location to the count.  On an array with an increasing
    time index and well-shaped steps, when the nearest cell is found the
    series of the year is obtained at that cell without fault, and the
    number of summer days computed from it is the number of time steps of
    the window whose value at that cell, in Kelvin, is above 298.15; it is
    at most the number of time steps of the array. *)
Theorem summer_days_of_nearest_cell
    (tasmax_xr : dataarray) (Y : Z) (latitude longitude : Q) (xloc yloc : nat) :
  increasing (time tasmax_xr) ->
  well_shaped tasmax_xr ->
  NearestCell.nearest_cell (lat (tasmax_year_xr tasmax_xr Y))
    (lon (tasmax_year_xr tasmax_xr Y)) latitude longitude = Ok (xloc, yloc) ->
  exists series kelvin,
    annual_series tasmax_xr Y (Z.of_nat yloc) (Z.of_nat xloc) = Ok series /\
    Forall2 (fun (step : timestamp * list (list Q)) (k : Q) =>
               exists values, snd step !! yloc = Some values /\ values !! xloc = Some k)
            (List.filter (fun step => in_window Y (fst step)) (steps tasmax_xr))
            kelvin /\
    map snd series = map (fun k => k - 273.15) kelvin /\
    SummerDays.no_summer_days_model (map snd series) =
      SummerDays.count_summer_days kelvin 298.15 /\
    (SummerDays.no_summer_days_model (map snd series) <= length (steps tasmax_xr))%nat.
Proof.
  intros Hinc Hshape Hcell. simpl in Hcell.
  apply nearest_cell_Ok_least in Hcell as (la & lo & Hla & Hlo & _).
  apply lookup_lt_Some in Hla, Hlo.
  pose proof (tasmax_year_xr_steps tasmax_xr Y Hinc) as Hsteps.
  destruct (traverse_cells (steps (tasmax_year_xr tasmax_xr Y))
              (length (lat tasmax_xr)) (length (lon tasmax_xr)) yloc xloc)
    as (cells & Hcells & Hrel); [|done|done|].
  { rewrite Hsteps. by apply Forall_filter_sub. }
  exists (map (fun s : timestamp * Q => (fst s, snd s - kelvin_offset)) cells),
         (map snd cells).
  assert (Hvalues : map snd (map (fun s : timestamp * Q => (fst s, snd s - kelvin_offset)) cells) =
                    map (fun k => k - 273.15) (map snd cells))
    by (by rewrite !map_map).
  split_and!.
  - unfold annual_series, tasmax_year_place_xr, isel. simpl.
    rewrite (py_position_nat _ _ Hla), (py_position_nat _ _ Hlo). simpl.
    simpl in Hcells. rewrite Hcells. reflexivity.
  - rewrite <- Hsteps. clear -Hrel.
    induction Hrel as [|step cell sts cells' (_ & values & H1 & H2) _ IH]; simpl;
      constructor; eauto.
  - exact Hvalues.
  - rewrite Hvalues. unfold SummerDays.no_summer_days_model.
    rewrite count_shift. reflexivity.
  - etrans; [apply count_le_length|].
    rewrite !length_map, <- (Forall2_length _ _ _ Hrel), Hsteps.
    apply filter_length_le.
Qed.

Lemma summer_days_of_nearest_cell_example :
  exists series kelvin,
    annual_series example_tasmax_xr 2015 (Z.of_nat 1) (Z.of_nat 0) = Ok series /\
    map snd series = map (fun k => k - 273.15) kelvin /\
    SummerDays.no_summer_days_model (map snd series) =
      SummerDays.count_summer_days kelvin 298.15.
Proof.
  destruct (summer_days_of_nearest_cell example_tasmax_xr 2015 53.9 9.1 0 1
              increasing_example well_shaped_example)
    as (series & kelvin & H1 & _ & H3 & H4 & _).
  - vm_compute. reflexivity.
  - exists series, kelvin. split_and!; assumption.
Defined.

End ExtractionMore.

(** ** The frame of the chart *)

Section PlotFacts.

Import Extraction Plot.

(** X17: for every series the cell that builds the frame of the chart
    succeeds.  The frame is indexed by the labels of the series and has the
    columns Temperature, Summer Day Threshold and Model Temperature, in
    this order; each of the two plotted columns has one entry per label:
    Model Temperature holds the values of the series and Summer Day
    Threshold holds the threshold of the count, 25, throughout; the column
    Temperature is never filled and holds NaN throughout. *)
Theorem tasmax_year_place_df_columns (tasmax_year_place_xr : list (timestamp * Q)) :
  exists df,
    tasmax_year_place_df tasmax_year_place_xr = Ok df /\
    index df = map fst tasmax_year_place_xr /\
    map fst (data df) = ["Temperature"; "Summer Day Threshold"; "Model Temperature"] /\
    column "Temperature" df =
      Some (replicate (length tasmax_year_place_xr) None) /\
    column "Summer Day Threshold" df =
      Some (replicate (length tasmax_year_place_xr)
              (Some SummerDays.summer_day_threshold)) /\
    column "Model Temperature" df =
      Some (map (fun s => Some (snd s)) tasmax_year_place_xr) /\
    Forall (fun name => exists values,
              column name df = Some values /\ length values = length (index df))
           plotted.
Proof.
  unfold tasmax_year_place_df, loc_set. simpl.
  rewrite decide_True by (by rewrite !length_map).
  eexists. split; [reflexivity|]. unfold loc_fill. simpl. rewrite !length_map.
  split_and!; try reflexivity.
  repeat constructor.
  - eexists. split; [reflexivity|]. simpl. by rewrite length_map.
  - eexists. split; [reflexivity|]. simpl. by rewrite length_replicate.
Qed.

End PlotFacts.
